(** * Dependency-pinning metric: a shallow embedding and its verification

    The program fetches a repository's [package.json] through the GitHub
    contents API, merges its four dependency categories and returns the
    fraction of dependencies whose version specifier is pinned to at least a
    major and a minor version.

    The embedding follows the TypeScript source function by function
    ([get_axios_params], [isVersionPinned], [calculatePinningScore],
    [_getDependencyPinningFractionFromPackageJson],
    [getDependencyPinningFraction]).  The JavaScript runtime the source relies
    on is modelled in [Module JS]: strings as lists of UTF-16 code units,
    values as a JSON-shaped tree, objects as property lists in own-key order,
    numbers as binary64 floats of [SpecFloat], the regular-expression matcher
    as the continuation-passing backtracking matcher of ECMA-262, exceptions
    and the logger as an error/writer monad.

    Three conventions hold throughout.  What the HTTP client, [Buffer.from]
    and [JSON.parse] throw is an Error object; the URL parser, which the
    sources import and do not define, may throw any value, and reading
    [error.message] of a thrown [null] or [undefined] fails in the handler.
    The logger, which the sources import and do not define, records its
    arguments and does nothing else.  The two counters of the score
    calculator are kept as natural numbers and become binary64 values at the
    division: they count array elements, and Numbers are exact on integers
    of that size. *)

From Stdlib Require Import List Bool Arith NArith ZArith Lia.
From Stdlib Require Import Ascii String DecimalString Permutation.
From Stdlib Require Import Floats.SpecFloat.
Import ListNotations.

(* ================================================================== *)
(** * The JavaScript runtime, as far as the program uses it *)
(* ================================================================== *)

Module JS.

(** ** Strings: sequences of UTF-16 code units *)

Definition code_unit := N.
Definition jstring := list code_unit.

(** A literal of the source, written with ASCII characters only. *)
Definition lit (s : string) : jstring :=
  map N_of_ascii (list_ascii_of_string s).

(** The code unit of an ASCII character of the source text. *)
Definition ch (a : ascii) : code_unit := N_of_ascii a.

Definition jstring_eqb (a b : jstring) : bool :=
  if list_eq_dec N.eq_dec a b then true else false.

(** [WhiteSpace] and [LineTerminator] of ECMA-262, the code points that
    [String.prototype.trim] strips. *)
Definition isWhiteSpace (c : code_unit) : bool :=
  match c with
  | 0x0009 | 0x000A | 0x000B | 0x000C | 0x000D => true
  | 0x0020 | 0x00A0 | 0x1680 => true
  | 0x2000 | 0x2001 | 0x2002 | 0x2003 | 0x2004 | 0x2005
  | 0x2006 | 0x2007 | 0x2008 | 0x2009 | 0x200A => true
  | 0x2028 | 0x2029 | 0x202F | 0x205F | 0x3000 | 0xFEFF => true
  | _ => false
  end%N.

Fixpoint trimStart (s : jstring) : jstring :=
  match s with
  | c :: t => if isWhiteSpace c then trimStart t else s
  | [] => []
  end.

Definition trimEnd (s : jstring) : jstring := rev (trimStart (rev s)).

(** [String.prototype.trim]. *)
Definition trim (s : jstring) : jstring := trimEnd (trimStart s).

(** ** Regular expressions

    The fragment of the pattern language that the source's literal uses, and
    the matcher of ECMA-262 (22.2.2): a matcher takes the current position and
    a continuation, and backtracks by trying its alternatives in order. *)

Inductive regex : Type :=
| Bol                        (* ^ , no multiline flag *)
| Eol                        (* $ , no multiline flag *)
| Chr (c : code_unit)        (* a literal or an escaped literal *)
| Digit                      (* \d *)
| Seq (r1 r2 : regex)        (* r1 r2 *)
| Alt (r1 r2 : regex)        (* r1 | r2 *)
| Group (r : regex)          (* ( r )  *)
| Opt (r : regex)            (* r ?  , greedy *)
| Plus (r : regex).          (* r +  , greedy *)

(** \d is [0-9], whatever the flags. *)
Definition isDigit (c : code_unit) : bool :=
  ((0x30 <=? c) && (c <=? 0x39))%N.

(** A match state: the end index reached so far and the input that is left. *)
Record cursor : Type := Cursor { endIndex : nat; rest : jstring }.

Definition continuation := cursor -> bool.

Definition step_char (p : code_unit -> bool) (x : cursor) (c : continuation)
  : bool :=
  match rest x with
  | a :: t => if p a then c (Cursor (S (endIndex x)) t) else false
  | [] => false
  end.

(** RepeatMatcher of ECMA-262 for a greedy quantifier whose min has reached 0
    and whose max is unbounded: another iteration of [m] is tried first, then
    the continuation.  An iteration that consumed nothing fails, so there are
    at most as many iterations as characters left: [fuel] counts them. *)
Fixpoint RepeatMatcher (m : cursor -> continuation -> bool) (fuel : nat)
  (x : cursor) (c : continuation) : bool :=
  match fuel with
  | O => c x
  | S fuel' =>
      m x (fun y =>
             if Nat.eqb (endIndex y) (endIndex x) then false
             else RepeatMatcher m fuel' y c)
      || c x
  end.

(** [matcher r x c]: does [r] match at [x] so that [c] accepts what follows?
    [r?] is RepeatMatcher with (min, max) = (0, 1); [r+] has (1, inf): a first
    iteration without the emptiness check, then [RepeatMatcher]. *)
Fixpoint matcher (r : regex) (x : cursor) (c : continuation) : bool :=
  match r with
  | Bol => if Nat.eqb (endIndex x) 0 then c x else false
  | Eol => match rest x with [] => c x | _ :: _ => false end
  | Chr a => step_char (N.eqb a) x c
  | Digit => step_char isDigit x c
  | Seq r1 r2 => matcher r1 x (fun y => matcher r2 y c)
  | Alt r1 r2 => matcher r1 x c || matcher r2 x c
  | Group r1 => matcher r1 x c
  | Opt r1 =>
      matcher r1 x
        (fun y => if Nat.eqb (endIndex y) (endIndex x) then false else c y)
      || c x
  | Plus r1 =>
      matcher r1 x
        (fun y => RepeatMatcher (matcher r1) (List.length (rest y)) y c)
  end.

(** [RegExp.prototype.test] for a pattern without the g and y flags: the
    match is tried at every index from 0 up to the length of the input. *)
Fixpoint search (r : regex) (i : nat) (s : jstring) : bool :=
  matcher r (Cursor i s) (fun _ => true)
  || match s with
     | [] => false
     | _ :: t => search r (S i) t
     end.

Definition test (r : regex) (s : jstring) : bool := search r 0 s.

(** ** Numbers: IEEE 754 binary64 *)

Definition Number := spec_float.

Definition prec : Z := 53.
Definition emax : Z := 1024.

Definition Number_div (x y : Number) : Number := SFdiv prec emax x y.
Definition Number_leb (x y : Number) : bool := SFleb x y.

(** The Number holding a count.  Counts of array elements are integers below
    2^32, on which the arithmetic of Numbers is exact; they are kept as [nat]
    and turned into a binary64 value where the program divides. *)
Definition Number_of_nat (n : nat) : Number :=
  binary_normalize prec emax (Z.of_nat n) 0 false.

(** The literals [1.0], [0.5] and [0]. *)
Definition Number_one : Number := S754_finite false 4503599627370496 (-52).
Definition Number_half : Number := S754_finite false 4503599627370496 (-53).
Definition Number_zero : Number := S754_zero false.

(** ** Values *)

#[warnings="-register-all"] Inductive value : Type :=
| VUndefined
| VNull
| VBoolean (b : bool)
| VNumber (x : Number)
| VString (s : jstring)
| VArray (elements : list value)
| VObject (properties : list (jstring * value)).

(** An ordinary object: its own enumerable string-keyed properties, in the
    order [OrdinaryOwnPropertyKeys] lists them.  Keys are unique. *)
Definition object := list (jstring * value).

Definition keys (o : object) : list jstring := map fst o.

Definition wf_object (o : object) : Prop := NoDup (keys o).

(** The own property [k] of [o], if there is one. *)
Fixpoint own (o : object) (k : jstring) : option value :=
  match o with
  | [] => None
  | (k', v) :: t => if jstring_eqb k' k then Some v else own t k
  end.

(** [ToBoolean]. *)
Definition ToBoolean (v : value) : bool :=
  match v with
  | VUndefined | VNull => false
  | VBoolean b => b
  | VNumber (S754_zero _) | VNumber S754_nan => false
  | VNumber _ => true
  | VString [] => false
  | VString (_ :: _) => true
  | VArray _ | VObject _ => true
  end.

(** ** Abrupt completions *)

(** Why the engine raises a TypeError in this program. *)
Inductive fault : Type :=
| ReadOfNullish (base : value) (property : jstring)
| NotAFunction (base : value) (property : jstring).

(** What is thrown: a TypeError of the engine, the Error object of a
    library or collaborator, of which the program reads [message] only, or
    any value that is not an Error object ([throw null], [throw "text"]). *)
Inductive Error : Type :=
| TypeError (f : fault)
| ThrownError (message : jstring)
| ThrownValue (v : value).

Definition is_Error_object (e : Error) : bool :=
  match e with
  | TypeError _ | ThrownError _ => true
  | ThrownValue _ => false
  end.

Inductive completion (A : Type) : Type :=
| Normal (a : A)
| Throw (e : Error).

Arguments Normal {A} a.
Arguments Throw {A} e.

Definition bind {A B} (m : completion A) (k : A -> completion B)
  : completion B :=
  match m with
  | Normal a => k a
  | Throw e => Throw e
  end.

(** [v.p] for the property names this program reads on values of unknown
    shape ([content] and the four category names): no built-in prototype,
    string or array defines them, so only an object's own property can
    answer; reading a property of [undefined] or [null] throws. *)
Definition Get (v : value) (p : jstring) : completion value :=
  match v with
  | VUndefined | VNull => Throw (TypeError (ReadOfNullish v p))
  | VObject o =>
      Normal (match own o p with Some x => x | None => VUndefined end)
  | VBoolean _ | VNumber _ | VString _ | VArray _ => Normal VUndefined
  end.

(** [v.trim()]: only a string has the method among the values above. *)
Definition call_trim (v : value) : completion jstring :=
  match v with
  | VString s => Normal (trim s)
  | VUndefined | VNull => Throw (TypeError (ReadOfNullish v (lit "trim")))
  | _ => Throw (TypeError (NotAFunction v (lit "trim")))
  end.

(** ** Property creation and object spread *)

Fixpoint digits_value (acc : N) (s : jstring) : option N :=
  match s with
  | [] => Some acc
  | c :: t =>
      if isDigit c then digits_value (acc * 10 + (c - 0x30))%N t else None
  end.

(** An array index: the canonical decimal form of an integer below 2^32 - 1. *)
Definition array_index (k : jstring) : option N :=
  match k with
  | [] => None
  | c :: t =>
      if N.eqb c 0x30 && negb (Nat.eqb (List.length t) 0) then None
      else match digits_value 0 k with
           | Some n => if (n <? 4294967295)%N then Some n else None
           | None => None
           end
  end.

Fixpoint replace_own (o : object) (k : jstring) (v : value) : object :=
  match o with
  | [] => []
  | (k', v') :: t =>
      if jstring_eqb k' k then (k', v) :: t else (k', v') :: replace_own t k v
  end.

Fixpoint insert_index (n : N) (k : jstring) (v : value) (o : object)
  : object :=
  match o with
  | [] => [(k, v)]
  | (k', v') :: t =>
      match array_index k' with
      | Some n' =>
          if (n' <? n)%N then (k', v') :: insert_index n k v t
          else (k, v) :: o
      | None => (k, v) :: o
      end
  end.

(** [CreateDataProperty] on an ordinary object: an existing property keeps
    its place and takes the new value; a new one is listed after the older
    ones, array indices first in ascending order. *)
Definition CreateDataProperty (o : object) (k : jstring) (v : value)
  : object :=
  match own o k with
  | Some _ => replace_own o k v
  | None =>
      match array_index k with
      | Some n => insert_index n k v o
      | None => o ++ [(k, v)]
      end
  end.

Definition index_key (i : nat) : jstring :=
  lit (NilZero.string_of_uint (Nat.to_uint i)).

Fixpoint indexed {A} (i : nat) (l : list A) : list (nat * A) :=
  match l with
  | [] => []
  | a :: t => (i, a) :: indexed (S i) t
  end.

(** The own enumerable properties [CopyDataProperties] reads from a source:
    none of [undefined], [null], a boolean or a number; the code units of a
    string and the elements of an array under their indices; the properties
    of an object. *)
Definition enumerable_own (source : value) : object :=
  match source with
  | VUndefined | VNull | VBoolean _ | VNumber _ => []
  | VString s =>
      map (fun ic => (index_key (fst ic), VString [snd ic])) (indexed 0 s)
  | VArray l => map (fun iv => (index_key (fst iv), snd iv)) (indexed 0 l)
  | VObject o => o
  end.

(** [{ ...target, ...source }]: the spread element of an object literal. *)
Definition spread (target : object) (source : value) : object :=
  fold_left (fun o kv => CreateDataProperty o (fst kv) (snd kv))
            (enumerable_own source) target.

(** [Object.keys]. *)
Definition Object_keys (o : object) : list jstring := keys o.

(** [Array.prototype.forEach] with a callback that updates the local state
    [S] of the enclosing function and may throw. *)
Fixpoint forEach {S} (l : list jstring)
  (callback : jstring -> S -> completion S) (s : S) : completion S :=
  match l with
  | [] => Normal s
  | x :: t => bind (callback x s) (forEach t callback)
  end.

End JS.

Import JS.

Declare Scope regex_scope.
Delimit Scope regex_scope with re.
Notation "a :+: b" := (Seq a b)
  (at level 40, left associativity) : regex_scope.
Notation "a :|: b" := (Alt a b)
  (at level 55, right associativity) : regex_scope.

(** [/^(\^|~)?\d+\.\d+(\.\d+|\.\*|\.x)?$/] *)
Definition PINNED_VERSION_REGEX : regex :=
  (Bol
   :+: Opt (Group (Chr (ch "^") :|: Chr (ch "~")))
   :+: Plus Digit :+: Chr (ch ".") :+: Plus Digit
   :+: Opt (Group ((Chr (ch ".") :+: Plus Digit)
                   :|: (Chr (ch ".") :+: Chr (ch "*"))
                   :|: (Chr (ch ".") :+: Chr (ch "x"))))
   :+: Eol)%re.

(* ================================================================== *)
(** * The program *)
(* ================================================================== *)

Declare Scope completion_scope.
Delimit Scope completion_scope with completion.
Notation "x <- m ; k" := (bind m (fun x => k))
  (at level 200, m at level 100, k at level 200, right associativity)
  : completion_scope.

(** ** Pinning classifier *)

(** [isVersionPinned(version)].  The parameter is declared a string; the
    caller passes whatever the manifest holds. *)
Definition isVersionPinned (version : value) : completion bool :=
  (trimmed <- call_trim version ;
   Normal (test PINNED_VERSION_REGEX trimmed))%completion.

(** ** Pinning score calculator *)

(** [calculatePinningScore(dependencies)]. *)
Definition calculatePinningScore (dependencies : object) : completion Number :=
  let dependencyNames := Object_keys dependencies in
  let total := List.length dependencyNames in
  if Nat.eqb total 0 then Normal Number_one
  else
    (pinnedCount <-
       forEach dependencyNames
         (fun dep pinnedCount =>
            let version :=
              match own dependencies dep with
              | Some v => v
              | None => VUndefined
              end in
            pinned <- isVersionPinned version ;
            Normal (if pinned : bool then pinnedCount + 1 else pinnedCount))
         0 ;
     Normal (Number_div (Number_of_nat pinnedCount) (Number_of_nat total)))
    %completion.

(** The declared parameter type [{ [key: string]: string }], and the object
    such a map is at run time. *)
Definition DependencyMap := list (jstring * jstring).

Definition as_object (m : DependencyMap) : object :=
  map (fun kv => (fst kv, VString (snd kv))) m.

(** ** Dependency aggregation *)

(** The object literal that builds [allDependencies] from the decoded
    manifest, its four spread elements evaluated in order. *)
Definition allDependencies (packageJson : value) : completion object :=
  (dependencies <- Get packageJson (lit "dependencies") ;
   let o := spread [] dependencies in
   devDependencies <- Get packageJson (lit "devDependencies") ;
   let o := spread o devDependencies in
   peerDependencies <- Get packageJson (lit "peerDependencies") ;
   let o := spread o peerDependencies in
   optionalDependencies <- Get packageJson (lit "optionalDependencies") ;
   let o := spread o optionalDependencies in
   Normal o)%completion.

(** ** Collaborators and effects *)

(** A record of the logger: the level, the message and the further
    arguments of the call. *)
Inductive log_record : Type :=
| LogDebug (message : jstring) (arguments : list value)
| LogError (message : jstring) (arguments : list value).

Definition Log := list log_record.

(** A computation that may write to the log and may throw.  An [async]
    function is run to the settlement of its promise: [Normal] is a
    fulfilled promise, [Throw] a rejected one, and [await] binds. *)
Definition M (A : Type) : Type := Log -> completion A * Log.

Definition ret {A} (a : A) : M A := fun log => (Normal a, log).

Definition lift {A} (c : completion A) : M A := fun log => (c, log).

Definition mbind {A B} (m : M A) (k : A -> M B) : M B :=
  fun log =>
    match m log with
    | (Normal a, log') => k a log'
    | (Throw e, log') => (Throw e, log')
    end.

(** [try { body } catch (error) { handler }]. *)
Definition try_catch {A} (body : M A) (handler : Error -> M A) : M A :=
  fun log =>
    match body log with
    | (Normal a, log') => (Normal a, log')
    | (Throw e, log') => handler e log'
    end.

Declare Scope M_scope.
Delimit Scope M_scope with M.
Notation "x <- m ;; k" := (mbind m (fun x => k))
  (at level 200, m at level 100, k at level 200, right associativity)
  : M_scope.
Notation "m ;; k" := (mbind m (fun _ => k))
  (at level 200, k at level 200, right associativity) : M_scope.

(** Modelled from the spec: the logger module ([../logger]) is not part of
    the sources.  It accepts [debug(message, context)] and
    [error(message, detail)] and is a side channel only: a call records its
    arguments and never affects control flow or return values. *)
Definition logger_debug (message : jstring) (arguments : list value) : M unit :=
  fun log => (Normal tt, log ++ [LogDebug message arguments]).

Definition logger_error (message : jstring) (arguments : list value) : M unit :=
  fun log => (Normal tt, log ++ [LogError message arguments]).

(** The response of the HTTP client, of which the program reads [data]. *)
Record response : Type := Response { data : value }.

(** What the program calls and does not define: the URL parser of the
    project ([../url]), the HTTP client, the runtime's [Buffer] and
    [JSON.parse], and the message text the engine puts in a TypeError.
    What the HTTP client, [Buffer.from] and [JSON.parse] throw is an Error
    object; what the URL parser throws is not known and may be any value. *)
Record Environment : Type := {
  parseGitHubUrl : jstring -> completion (jstring * jstring);
  axios_get : jstring -> object -> completion response;
  Buffer_from : value -> jstring -> completion (list N);
  Buffer_toString : list N -> jstring -> jstring;
  JSON_parse : jstring -> completion value;
  engine_message : fault -> jstring;
  axios_get_throws :
    forall url headers e,
      axios_get url headers = Throw e -> is_Error_object e = true;
  Buffer_from_throws :
    forall content encoding e,
      Buffer_from content encoding = Throw e -> is_Error_object e = true;
  JSON_parse_throws :
    forall text e, JSON_parse text = Throw e -> is_Error_object e = true
}.

Section Program.

Context (env : Environment).

(** The message of an Error object; of a thrown value that is not one, its
    [message] property where that is a string. *)
Definition message (error : Error) : jstring :=
  match error with
  | TypeError f => engine_message env f
  | ThrownError m => m
  | ThrownValue (VObject o) =>
      match own o (lit "message") with
      | Some (VString m) => m
      | _ => []
      end
  | ThrownValue _ => []
  end.

(** [error.message] as a handler evaluates it on its catch variable, which
    is typed [any]: the message of an Error object; on any other thrown
    value a property read, which throws on [null] and [undefined] and gives
    [undefined] where there is no such property (no built-in prototype of a
    value that is not an Error object defines [message]). *)
Definition read_message (error : Error) : completion value :=
  match error with
  | TypeError _ | ThrownError _ => Normal (VString (message error))
  | ThrownValue v => Get v (lit "message")
  end.

(** ** Request parameter builder *)

(** [get_axios_params(url, token)]. *)
Definition get_axios_params (url token : jstring)
  : M (jstring * jstring * object) :=
  (owner_repo <- lift (parseGitHubUrl env url) ;;
   let owner := fst owner_repo in
   let repo := snd owner_repo in
   let headers :=
     [ (lit "Authorization", VString (lit "token " ++ token));
       (lit "Accept", VString (lit "application/vnd.github.v3+json")) ] in
   logger_debug (lit "Generated axios parameters")
     [VObject [(lit "owner", VString owner); (lit "repo", VString repo)]] ;;
   ret (owner, repo, headers))%M.

(** ** Manifest fetcher *)

(** [_getDependencyPinningFractionFromPackageJson(owner, repo, headers)];
    [None] is [null]. *)
Definition _getDependencyPinningFractionFromPackageJson
  (owner repo : jstring) (headers : object) : M (option Number) :=
  try_catch
    (let packageJsonUrl :=
       lit "https://api.github.com/repos/" ++ owner ++ lit "/" ++ repo
       ++ lit "/contents/package.json" in
     packageResponse <- lift (axios_get env packageJsonUrl headers) ;;
     content <- lift (Get (data packageResponse) (lit "content")) ;;
     if ToBoolean content then
       buffer <- lift (Buffer_from env content (lit "base64")) ;;
       let packageContent := Buffer_toString env buffer (lit "utf-8") in
       packageJson <- lift (JSON_parse env packageContent) ;;
       all <- lift (allDependencies packageJson) ;;
       pinningScore <- lift (calculatePinningScore all) ;;
       ret (Some pinningScore)
     else
       logger_error
         (lit "package.json content not found for " ++ owner ++ lit "/"
          ++ repo ++ lit ".") [] ;;
       ret None)%M
    (fun error =>
       detail <- lift (read_message error) ;;
       logger_error
         (lit "Failed to fetch package.json for " ++ owner ++ lit "/" ++ repo
          ++ lit ":") [detail] ;;
       ret None)%M.

(** ** Top-level orchestrator *)

(** [getDependencyPinningFraction(url, token)]. *)
Definition getDependencyPinningFraction (url token : jstring)
  : M (option Number) :=
  try_catch
    (params <- get_axios_params url token ;;
     let owner := fst (fst params) in
     let repo := snd (fst params) in
     let headers := snd params in
     _getDependencyPinningFractionFromPackageJson owner repo headers)%M
    (fun error =>
       detail <- lift (read_message error) ;;
       logger_error (lit "Error processing " ++ url ++ lit ":") [detail] ;;
       ret None)%M.

End Program.

(* ================================================================== *)
(** * Specification-side notions *)
(* ================================================================== *)

(** ** The pinned-version pattern, in words *)

Definition decimal_digit (c : code_unit) : Prop := In c (lit "0123456789").

(** One or more digits. *)
Definition digits (w : jstring) : Prop := w <> [] /\ Forall decimal_digit w.

(** Optional leading [^] or [~], one or more digits, [.], one or more
    digits, optionally followed by [.] and (one or more digits, or a literal
    [*], or a literal [x]). *)
Definition pinned_pattern (s : jstring) : Prop :=
  exists prefix major minor suffix,
    s = prefix ++ major ++ [ch "."] ++ minor ++ suffix
    /\ (prefix = [] \/ prefix = [ch "^"] \/ prefix = [ch "~"])
    /\ digits major
    /\ digits minor
    /\ (suffix = []
        \/ exists patch,
             suffix = ch "." :: patch
             /\ (digits patch \/ patch = [ch "*"] \/ patch = [ch "x"])).

(** ** Entries of a dependency map *)

(** The verdict of the classifier on a version string. *)
Definition classified_pinned (version : jstring) : bool :=
  match isVersionPinned (VString version) with
  | Normal b => b
  | Throw _ => false
  end.

(** The entries whose version the classifier calls pinned. *)
Definition pinned_entries (m : DependencyMap) : DependencyMap :=
  filter (fun kv => classified_pinned (snd kv)) m.

(** Two dependency maps hold the same name-to-version entries. *)
Definition same_entries (m1 m2 : DependencyMap) : Prop :=
  forall name version, In (name, version) m1 <-> In (name, version) m2.

(** ** Categories of a manifest *)

(** The four dependency categories, in the order the program merges them. *)
Definition category_names : list jstring :=
  [lit "dependencies"; lit "devDependencies"; lit "peerDependencies";
   lit "optionalDependencies"].

(** The mapping a manifest declares under [name]; none when the category is
    absent. *)
Definition category (manifest : object) (name : jstring) : object :=
  match own manifest name with
  | Some (VObject o) => o
  | _ => []
  end.

(** A category is absent from the manifest or is a mapping. *)
Definition absent_or_mapping (manifest : object) (name : jstring) : Prop :=
  own manifest name = None
  \/ exists o, own manifest name = Some (VObject o) /\ wf_object o.

(** What a name is mapped to when the listed mappings are merged and a
    later one overwrites an earlier one. *)
Fixpoint later_wins (categories : list object) (name : jstring)
  : option value :=
  match categories with
  | [] => None
  | c :: later =>
      match later_wins later name with
      | Some v => Some v
      | None => own c name
      end
  end.

(** ** The manifest request and its failures *)

(** The address of the one request: the contents endpoint for
    [package.json]. *)
Definition contents_url (owner repo : jstring) : jstring :=
  lit "https://api.github.com/repos/" ++ owner ++ lit "/" ++ repo
  ++ lit "/contents/package.json".

(** The response body carries a field [name]. *)
Definition has_field (body : value) (name : jstring) : bool :=
  match body with
  | VObject o => match own o name with Some _ => true | None => false end
  | _ => false
  end.

(** An error record whose message names [owner/repo]. *)
Definition error_naming (owner repo : jstring) (r : log_record) : Prop :=
  exists before after arguments,
    r = LogError (before ++ owner ++ lit "/" ++ repo ++ after) arguments.

(** The record written when the content is not found, and the one written
    when the request fails with [error]. *)
Definition content_not_found (owner repo : jstring) : log_record :=
  LogError
    (lit "package.json content not found for " ++ owner ++ lit "/" ++ repo
     ++ lit ".") [].

Definition failed_to_fetch (env : Environment) (owner repo : jstring)
  (error : Error) : log_record :=
  LogError
    (lit "Failed to fetch package.json for " ++ owner ++ lit "/" ++ repo
     ++ lit ":") [VString (message env error)].

(** The HTTP call of the fetcher fails with [error]: the request itself
    (network error, non-2xx status), the base64 decoding of the content, or
    the parsing of the decoded text. *)
Inductive fetch_fails (env : Environment) (owner repo : jstring)
  (headers : object) (error : Error) : Prop :=
| request_fails :
    axios_get env (contents_url owner repo) headers = Throw error ->
    fetch_fails env owner repo headers error
| decode_fails packageResponse content :
    axios_get env (contents_url owner repo) headers = Normal packageResponse ->
    Get (data packageResponse) (lit "content") = Normal content ->
    ToBoolean content = true ->
    Buffer_from env content (lit "base64") = Throw error ->
    fetch_fails env owner repo headers error
| parse_fails packageResponse content buffer :
    axios_get env (contents_url owner repo) headers = Normal packageResponse ->
    Get (data packageResponse) (lit "content") = Normal content ->
    ToBoolean content = true ->
    Buffer_from env content (lit "base64") = Normal buffer ->
    JSON_parse env (Buffer_toString env buffer (lit "utf-8")) = Throw error ->
    fetch_fails env owner repo headers error.

(** ** Scores *)

(** A number of the closed interval from 0 to 1. *)
Definition in_unit_interval (x : Number) : Prop :=
  Number_leb Number_zero x = true /\ Number_leb x Number_one = true.

(** What the manifest holds under [name], read as the program reads it. *)
Definition declared (packageJson : value) (name : jstring) : value :=
  match Get packageJson name with
  | Normal v => v
  | Throw _ => VUndefined
  end.

(** The number of entries the four categories of a manifest hold together. *)
Definition manifest_entries (packageJson : value) : nat :=
  list_sum
    (map (fun name => List.length (enumerable_own (declared packageJson name)))
         category_names).

(** The second half of [binary_round_aux]: a rounded mantissa is shifted
    once more if rounding gave it a digit too many, and packed. *)
Definition pack_rounded (sx : bool) (q e : Z) : Number :=
  let '(mrs, e') := shr_fexp prec emax q e loc_Exact in
  match shr_m mrs with
  | Z0 => S754_zero sx
  | Zpos m =>
      if (e' <=? emax - prec)%Z then S754_finite sx m e'
      else S754_infinity sx
  | Zneg _ => S754_nan
  end.

(** ** Sample inputs, for the examples *)


(** A completion of a library: what it throws is an Error object (a thrown
    value that is not one is replaced by an Error without a message). *)
Definition of_library {A} (c : completion A) : completion A :=
  match c with
  | Throw (ThrownValue _) => Throw (ThrownError [])
  | _ => c
  end.

Definition of_library_throws {A} (c : completion A) (e : Error)
  : of_library c = Throw e -> is_Error_object e = true.
Proof.
  destruct c as [a|[f|m|v]]; cbn; intros H; try discriminate;
    injection H as <-; reflexivity.
Defined.

(** Collaborators that answer every request with [reply] and parse every
    text to [manifest]. *)
Definition sample_environment (reply : completion response)
  (manifest : completion value) : Environment :=
  {| parseGitHubUrl := fun _ => Normal (lit "octocat", lit "hello-world");
     axios_get := fun _ _ => of_library reply;
     Buffer_from := fun _ _ => Normal [];
     Buffer_toString := fun _ _ => [];
     JSON_parse := fun _ => of_library manifest;
     engine_message := fun _ => lit "TypeError";
     axios_get_throws := fun _ _ => of_library_throws reply;
     Buffer_from_throws :=
       fun _ _ e H =>
         of_library_throws (Normal []) e H;
     JSON_parse_throws := fun _ => of_library_throws manifest |}.


Definition sample_map : DependencyMap :=
  [(lit "a", lit "1.2.3"); (lit "b", lit "*")].

Definition sample_map_reordered : DependencyMap :=
  [(lit "b", lit "*"); (lit "a", lit "1.2.3")].

Definition sample_manifest : object :=
  [(lit "dependencies", VObject [(lit "lodash", VString (lit "^4.17.21"))]);
   (lit "devDependencies", VObject [(lit "jest", VString (lit "latest"))])].

Definition sample_headers : object :=
  [(lit "Authorization", VString (lit "token t"));
   (lit "Accept", VString (lit "application/vnd.github.v3+json"))].

(** ** Languages of words, for the matcher *)

Definition language := jstring -> Prop.

Definition Lchr (a : code_unit) : language := fun w => w = [a].
Definition Ldigit : language := fun w => exists a, w = [a] /\ isDigit a = true.
Definition Lcat (L1 L2 : language) : language :=
  fun w => exists w1 w2, w = w1 ++ w2 /\ L1 w1 /\ L2 w2.
Definition Lalt (L1 L2 : language) : language := fun w => L1 w \/ L2 w.
Definition Lopt (L : language) : language := fun w => w = [] \/ L w.

Inductive Lstar (L : language) : language :=
| Lstar_nil : Lstar L []
| Lstar_app w1 w2 : L w1 -> Lstar L w2 -> Lstar L (w1 ++ w2).

Definition Lplus (L : language) : language := Lcat L (Lstar L).

(** A matcher recognises [L] when it succeeds exactly by consuming a word of
    [L] and handing what is left to its continuation. *)
Definition recognises (m : cursor -> continuation -> bool) (L : language)
  : Prop :=
  forall i s c,
    m (Cursor i s) c = true <->
    exists w t, s = w ++ t /\ L w /\ c (Cursor (i + List.length w) t) = true.

(** The pattern between [^] and [$], its sequence nested to the right, and
    the language of its words. *)
Definition pinned_body : regex :=
  (Seq (Opt (Group (Chr (ch "^") :|: Chr (ch "~"))))
   (Seq (Plus Digit)
    (Seq (Chr (ch "."))
     (Seq (Plus Digit)
      (Opt (Group ((Chr (ch ".") :+: Plus Digit)
                   :|: (Chr (ch ".") :+: Chr (ch "*"))
                   :|: (Chr (ch ".") :+: Chr (ch "x")))))))))%re.

Definition Lpinned : language :=
  Lcat (Lopt (Lalt (Lchr (ch "^")) (Lchr (ch "~"))))
   (Lcat (Lplus Ldigit)
    (Lcat (Lchr (ch "."))
     (Lcat (Lplus Ldigit)
      (Lopt (Lalt (Lcat (Lchr (ch ".")) (Lplus Ldigit))
             (Lalt (Lcat (Lchr (ch ".")) (Lchr (ch "*")))
                   (Lcat (Lchr (ch ".")) (Lchr (ch "x"))))))))).

(** ** Further notions: versions, maps, runs *)

(** A run of white space, as [trim] strips it. *)
Definition whitespace (w : jstring) : Prop :=
  Forall (fun c => isWhiteSpace c = true) w.

(** The characters a pinned version is written with. *)
Definition version_character (c : code_unit) : Prop :=
  In c (lit "0123456789.^~*x").

Definition is_string (v : value) : bool :=
  match v with
  | VString _ => true
  | _ => false
  end.

Definition is_nullish (v : value) : bool :=
  match v with
  | VUndefined | VNull => true
  | _ => false
  end.

(** Every entry of a dependency map is classified as pinned. *)
Definition all_pinned (m : DependencyMap) : bool :=
  forallb (fun kv => classified_pinned (snd kv)) m.

(** The names the four categories of a manifest declare, with repetitions. *)
Definition declared_names (manifest : object) : list jstring :=
  List.concat
    (map (fun name => keys (category manifest name)) category_names).

(** None of the four categories of a manifest holds an entry. *)
Definition declares_nothing (packageJson : value) : Prop :=
  forall name,
    In name category_names -> enumerable_own (declared packageJson name) = [].

(** The headers [get_axios_params] builds for a token. *)
Definition request_headers (token : jstring) : object :=
  [ (lit "Authorization", VString (lit "token " ++ token));
    (lit "Accept", VString (lit "application/vnd.github.v3+json")) ].

(** The records the program writes besides the two of the fetcher. *)
Definition generated_parameters (owner repo : jstring) : log_record :=
  LogDebug (lit "Generated axios parameters")
    [VObject [(lit "owner", VString owner); (lit "repo", VString repo)]].

Definition error_processing (url : jstring) (detail : value) : log_record :=
  LogError (lit "Error processing " ++ url ++ lit ":") [detail].

(** The request of the fetcher succeeds and its content decodes and parses to
    [packageJson]. *)
Inductive fetch_decodes (env : Environment) (owner repo : jstring)
  (headers : object) (packageJson : value) : Prop :=
| decodes packageResponse content buffer :
    axios_get env (contents_url owner repo) headers = Normal packageResponse ->
    Get (data packageResponse) (lit "content") = Normal content ->
    ToBoolean content = true ->
    Buffer_from env content (lit "base64") = Normal buffer ->
    JSON_parse env (Buffer_toString env buffer (lit "utf-8"))
    = Normal packageJson ->
    fetch_decodes env owner repo headers packageJson.

(** ** Further sample inputs *)

(** A reply whose body carries a content. *)
Definition sample_reply : completion response :=
  Normal (Response (VObject [(lit "content", VString (lit "e30="))])).

Definition sample_manifest_map : DependencyMap :=
  [(lit "lodash", lit "^4.17.21"); (lit "jest", lit "latest")].

(** [{a: "1.2.3", b: 1}]. *)
Definition sample_untyped : object :=
  [(lit "a", VString (lit "1.2.3")); (lit "b", VNumber Number_one)].

(* ================================================================== *)
(** * The regular-expression matcher *)
(* ================================================================== *)

Section Matcher.

Lemma recognises_step_char (p : code_unit -> bool) :
  recognises (step_char p) (fun w => exists a, w = [a] /\ p a = true).
Proof.
  intros i s c. unfold step_char. cbn [rest endIndex].
  destruct s as [|a t].
  - split; [discriminate|].
    intros (w & t & E & (a & -> & _) & _). discriminate.
  - destruct (p a) eqn:Hp.
    + split.
      * intros H. exists [a], t. cbn [List.length app].
        rewrite Nat.add_1_r. eauto.
      * intros (w & t' & E & (b & -> & _) & H).
        injection E as -> ->. cbn [List.length] in H.
        now rewrite Nat.add_1_r in H.
    + split; [discriminate|].
      intros (w & t' & E & (b & -> & Hb) & _).
      injection E as -> ->. congruence.
Qed.

Lemma recognises_ext m (L L' : language) :
  (forall w, L w <-> L' w) -> recognises m L -> recognises m L'.
Proof.
  intros E H i s c. rewrite (H i s c).
  split; intros (w & t & ? & ? & ?); exists w, t; repeat split; auto;
    now apply E.
Qed.

Lemma recognises_Chr a : recognises (matcher (Chr a)) (Lchr a).
Proof.
  apply recognises_ext with (2 := recognises_step_char (N.eqb a)).
  intros w. unfold Lchr. split.
  - intros (b & -> & H). apply N.eqb_eq in H. now subst.
  - intros ->. exists a. split; [easy | apply N.eqb_refl].
Qed.

Lemma recognises_Digit : recognises (matcher Digit) Ldigit.
Proof. exact (recognises_step_char isDigit). Qed.

Lemma recognises_Seq r1 r2 L1 L2 :
  recognises (matcher r1) L1 -> recognises (matcher r2) L2 ->
  recognises (matcher (Seq r1 r2)) (Lcat L1 L2).
Proof.
  intros H1 H2 i s c. cbn [matcher]. rewrite (H1 i s). split.
  - intros (w1 & t1 & -> & Hw1 & H). apply H2 in H.
    destruct H as (w2 & t2 & -> & Hw2 & H).
    exists (w1 ++ w2), t2. rewrite <- app_assoc, length_app, Nat.add_assoc.
    repeat split; auto. now exists w1, w2.
  - intros (w & t & -> & (w1 & w2 & -> & Hw1 & Hw2) & H).
    exists w1, (w2 ++ t). rewrite <- app_assoc. repeat split; auto.
    apply H2. exists w2, t.
    now rewrite length_app, Nat.add_assoc in H.
Qed.

Lemma recognises_Alt r1 r2 L1 L2 :
  recognises (matcher r1) L1 -> recognises (matcher r2) L2 ->
  recognises (matcher (Alt r1 r2)) (Lalt L1 L2).
Proof.
  intros H1 H2 i s c. cbn [matcher].
  rewrite orb_true_iff, (H1 i s), (H2 i s). unfold Lalt. split.
  - intros [(w & t & ? & ? & ?)|(w & t & ? & ? & ?)]; exists w, t; auto.
  - intros (w & t & ? & [?|?] & ?); [left|right]; exists w, t; auto.
Qed.

Lemma recognises_Group r L :
  recognises (matcher r) L -> recognises (matcher (Group r)) L.
Proof. intros H i s c. exact (H i s c). Qed.

Lemma recognises_Opt r L :
  recognises (matcher r) L -> recognises (matcher (Opt r)) (Lopt L).
Proof.
  intros H i s c. cbn [matcher endIndex].
  rewrite orb_true_iff, (H i s). unfold Lopt. split.
  - intros [(w & t & -> & Hw & Hc)|Hc].
    + exists w, t. repeat split; auto.
      destruct (Nat.eqb _ _); [discriminate | exact Hc].
    + exists [], s. cbn. rewrite Nat.add_0_r. auto.
  - intros (w & t & -> & [->|Hw] & Hc).
    + right. cbn in Hc. now rewrite Nat.add_0_r in Hc.
    + destruct w as [|a w].
      * right. cbn in Hc. now rewrite Nat.add_0_r in Hc.
      * left. exists (a :: w), t. repeat split; auto.
        cbn [List.length endIndex] in *.
        destruct (Nat.eqb_spec (i + S (List.length w)) i); [lia | exact Hc].
Qed.

Lemma RepeatMatcher_star m L :
  recognises m L -> (forall w, L w -> w <> []) ->
  forall fuel i s c,
    List.length s <= fuel ->
    (RepeatMatcher m fuel (Cursor i s) c = true <->
     exists w t,
       s = w ++ t /\ Lstar L w /\ c (Cursor (i + List.length w) t) = true).
Proof.
  intros Hm Hne. induction fuel as [|fuel IH]; intros i s c Hlen.
  - destruct s; [|cbn in Hlen; lia]. cbn [RepeatMatcher]. split.
    + intros Hc. exists [], []. cbn. rewrite Nat.add_0_r.
      repeat split; auto. constructor.
    + intros (w & t & E & _ & Hc). symmetry in E.
      apply app_eq_nil in E. destruct E as [-> ->].
      cbn in Hc. now rewrite Nat.add_0_r in Hc.
  - cbn [RepeatMatcher endIndex]. rewrite orb_true_iff, (Hm i s). split.
    + intros [(w1 & t1 & -> & Hw1 & H)|Hc].
      * pose proof (Hne _ Hw1) as Hn.
        assert (Hl : 1 <= List.length w1) by (destruct w1; cbn; [easy|lia]).
        cbn [endIndex] in H.
        destruct (Nat.eqb_spec (i + List.length w1) i); [lia|].
        rewrite length_app in Hlen.
        apply IH in H; [|lia].
        destruct H as (w2 & t2 & -> & Hw2 & Hc).
        exists (w1 ++ w2), t2.
        rewrite <- app_assoc, length_app, Nat.add_assoc.
        repeat split; auto. now constructor.
      * exists [], s. cbn. rewrite Nat.add_0_r.
        repeat split; auto. constructor.
    + intros (w & t & -> & Hw & Hc). destruct Hw as [|w1 w2 Hw1 Hw2].
      * right. cbn in Hc. now rewrite Nat.add_0_r in Hc.
      * pose proof (Hne _ Hw1) as Hn.
        assert (Hl : 1 <= List.length w1) by (destruct w1; cbn; [easy|lia]).
        left. exists w1, (w2 ++ t). rewrite <- app_assoc.
        repeat split; auto. cbn [endIndex].
        destruct (Nat.eqb_spec (i + List.length w1) i); [lia|].
        rewrite !length_app in Hlen.
        apply IH; [rewrite length_app; lia|].
        exists w2, t. repeat split; auto.
        now rewrite length_app, Nat.add_assoc in Hc.
Qed.

Lemma recognises_Plus r L :
  recognises (matcher r) L -> (forall w, L w -> w <> []) ->
  recognises (matcher (Plus r)) (Lplus L).
Proof.
  intros H Hne i s c. cbn [matcher rest]. rewrite (H i s). split.
  - intros (w1 & t1 & -> & Hw1 & Hr).
    apply (RepeatMatcher_star _ _ H Hne) in Hr; [|reflexivity].
    destruct Hr as (w2 & t2 & -> & Hw2 & Hc).
    exists (w1 ++ w2), t2. rewrite <- app_assoc, length_app, Nat.add_assoc.
    repeat split; auto. now exists w1, w2.
  - intros (w & t & -> & (w1 & w2 & -> & Hw1 & Hw2) & Hc).
    exists w1, (w2 ++ t). rewrite <- app_assoc. repeat split; auto.
    apply (RepeatMatcher_star _ _ H Hne); [reflexivity|].
    exists w2, t. repeat split; auto.
    now rewrite length_app, Nat.add_assoc in Hc.
Qed.

End Matcher.

(* ================================================================== *)
(** * The pinning classifier *)
(* ================================================================== *)

Section Classifier.

Lemma matcher_PINNED_VERSION_REGEX x c :
  matcher PINNED_VERSION_REGEX x c =
  matcher Bol x (fun y => matcher pinned_body y (fun z => matcher Eol z c)).
Proof. reflexivity. Qed.

Lemma Ldigit_nonempty w : Ldigit w -> w <> [].
Proof. intros (a & -> & _). discriminate. Qed.

Lemma recognises_pinned_body : recognises (matcher pinned_body) Lpinned.
Proof.
  unfold pinned_body, Lpinned.
  repeat first
    [ apply recognises_Seq | apply recognises_Opt | apply recognises_Group
    | apply recognises_Alt | apply recognises_Chr
    | apply recognises_Plus; [|exact Ldigit_nonempty]
    | apply recognises_Digit ].
Qed.

Lemma isDigit_decimal_digit c : isDigit c = true <-> decimal_digit c.
Proof.
  unfold isDigit, decimal_digit. rewrite andb_true_iff, !N.leb_le.
  cbn [lit list_ascii_of_string map N_of_ascii N_of_digits In].
  cbn. lia.
Qed.

Lemma Lstar_Ldigit w : Lstar Ldigit w <-> Forall decimal_digit w.
Proof.
  split.
  - induction 1 as [|w1 w2 (a & -> & Ha) _ IH]; [constructor|].
    cbn. constructor; [now apply isDigit_decimal_digit | exact IH].
  - induction 1 as [|a w Ha _ IH]; [constructor|].
    change (a :: w) with ([a] ++ w). constructor; [|exact IH].
    exists a. split; [easy | now apply isDigit_decimal_digit].
Qed.

Lemma Lplus_Ldigit w : Lplus Ldigit w <-> digits w.
Proof.
  unfold Lplus, Lcat, digits. split.
  - intros (w1 & w2 & -> & (a & -> & Ha) & Hs). split; [discriminate|].
    cbn. constructor; [now apply isDigit_decimal_digit|].
    now apply Lstar_Ldigit.
  - intros [Hne HF]. destruct w as [|a w]; [easy|].
    inversion HF; subst. exists [a], w. repeat split.
    + exists a. split; [easy | now apply isDigit_decimal_digit].
    + now apply Lstar_Ldigit.
Qed.

Lemma Lpinned_pinned_pattern s : Lpinned s <-> pinned_pattern s.
Proof.
  unfold Lpinned, pinned_pattern, Lcat, Lopt, Lalt, Lchr. split.
  - intros (p & s1 & -> & Hp & major & s2 & -> & Hmaj
              & dot & s3 & -> & -> & minor & suffix & -> & Hmin & Hsuf).
    exists p, major, minor, suffix.
    apply Lplus_Ldigit in Hmaj. apply Lplus_Ldigit in Hmin.
    refine (conj eq_refl (conj _ (conj Hmaj (conj Hmin _)))).
    + tauto.
    + destruct Hsuf as [->|H]; [now left | right].
      destruct H as [(d & patch & -> & -> & H)
                    |[(d & star & -> & -> & ->)|(d & x & -> & -> & ->)]].
      * exists patch. apply Lplus_Ldigit in H. auto.
      * exists [ch "*"]. auto.
      * exists [ch "x"]. auto.
  - intros (p & major & minor & suffix & -> & Hp & Hmaj & Hmin & Hsuf).
    apply Lplus_Ldigit in Hmaj. apply Lplus_Ldigit in Hmin.
    exists p, (major ++ [ch "."] ++ minor ++ suffix).
    repeat split; [tauto|].
    exists major, ([ch "."] ++ minor ++ suffix). repeat split; auto.
    exists [ch "."], (minor ++ suffix). repeat split; auto.
    exists minor, suffix. repeat split; auto.
    destruct Hsuf as [->|(patch & -> & H)]; [now left | right].
    destruct H as [H|[->| ->]].
    + left. exists [ch "."], patch. apply Lplus_Ldigit in H. auto.
    + right. left. exists [ch "."], [ch "*"]. auto.
    + right. right. exists [ch "."], [ch "x"]. auto.
Qed.

Lemma search_after_start s :
  forall i, search PINNED_VERSION_REGEX (S i) s = false.
Proof.
  induction s as [|a s IH]; intros i; cbn [search];
    rewrite matcher_PINNED_VERSION_REGEX; cbn [matcher endIndex Nat.eqb].
  - reflexivity.
  - apply IH.
Qed.

Lemma test_pinned_pattern s :
  test PINNED_VERSION_REGEX s = true <-> pinned_pattern s.
Proof.
  rewrite <- Lpinned_pinned_pattern. unfold test.
  assert (E : search PINNED_VERSION_REGEX 0 s
              = matcher PINNED_VERSION_REGEX (Cursor 0 s) (fun _ => true)).
  { destruct s; cbn [search]; [apply orb_false_r|].
    now rewrite search_after_start, orb_false_r. }
  rewrite E, matcher_PINNED_VERSION_REGEX. cbn [matcher endIndex Nat.eqb].
  rewrite (recognises_pinned_body 0 s). split.
  - intros (w & t & -> & Hw & Ht). cbn [matcher rest] in Ht.
    destruct t; [|discriminate]. now rewrite app_nil_r.
  - intros H. exists s, []. rewrite app_nil_r. auto.
Qed.

(** C2.  [isVersionPinned] answers [true] on exactly the strings whose
    trimmed form has the pinned-version pattern (optional [^] or [~], digits,
    [.], digits, optionally [.] and digits, [*] or [x]) and [false] on every
    other string; so for [2.3], [^2.3.4], [~2.3.x], [2.3.*] it is [true] and
    for [*], [latest], [>=1.0.0], [1], [1.2.3-beta] it is [false]. *)
Theorem isVersionPinned_pattern :
  (forall version : jstring,
     exists b : bool,
       isVersionPinned (VString version) = Normal b
       /\ (b = true <-> pinned_pattern (trim version)))
  /\ map (fun s => isVersionPinned (VString (lit s)))
       ["2.3"; "^2.3.4"; "~2.3.x"; "2.3.*";
        "*"; "latest"; ">=1.0.0"; "1"; "1.2.3-beta"]%string
     = [Normal true; Normal true; Normal true; Normal true;
        Normal false; Normal false; Normal false; Normal false; Normal false].
Proof.
  split; [|vm_compute; reflexivity].
  intros version. unfold isVersionPinned. cbn [call_trim bind].
  eexists. split; [reflexivity|]. apply test_pinned_pattern.
Qed.

End Classifier.

(* ================================================================== *)
(** * Binary64 division of counts *)
(* ================================================================== *)

Section Binary64.

Local Open Scope Z_scope.

Lemma digits2_pos_bounds p :
  2 ^ (Zpos (digits2_pos p) - 1) <= Zpos p < 2 ^ Zpos (digits2_pos p).
Proof.
  induction p as [p IH|p IH|]; cbn [digits2_pos];
    [| |cbn; lia];
    rewrite Pos2Z.inj_succ;
    set (d := Zpos (digits2_pos p)) in *;
    replace (Z.succ d - 1) with (Z.succ (d - 1)) by lia;
    rewrite !Z.pow_succ_r by lia; lia.
Qed.

Lemma digits2_pos_unique p d :
  2 ^ (d - 1) <= Zpos p < 2 ^ d -> 0 < d -> Zpos (digits2_pos p) = d.
Proof.
  intros [Hl Hu] Hd. pose proof (digits2_pos_bounds p) as [Bl Bu].
  assert (H1 : d - 1 < Zpos (digits2_pos p)).
  { apply (Z.pow_lt_mono_r_iff 2); lia. }
  assert (H2 : Zpos (digits2_pos p) - 1 < d).
  { apply (Z.pow_lt_mono_r_iff 2); lia. }
  lia.
Qed.

Lemma shr_fexp_53 p e l :
  2 ^ 52 <= Zpos p < 2 ^ 53 -> -1074 <= e ->
  shr_fexp prec emax (Zpos p) e l = (shr_record_of_loc (Zpos p) l, e).
Proof.
  intros Hp He. unfold shr_fexp, fexp, emin. cbn [Zdigits2].
  rewrite (digits2_pos_unique p 53) by (cbn; lia).
  replace (Z.max (53 + e - prec) (3 - emax - prec) - e) with 0
    by (unfold prec, emax; lia).
  reflexivity.
Qed.

Lemma shr_fexp_54 p e l :
  2 ^ 53 <= Zpos p < 2 ^ 54 -> -1074 <= e ->
  shr_fexp prec emax (Zpos p) e l
  = (shr_1 (shr_record_of_loc (Zpos p) l), e + 1).
Proof.
  intros Hp He. unfold shr_fexp, fexp, emin. cbn [Zdigits2].
  rewrite (digits2_pos_unique p 54) by (cbn; lia).
  replace (Z.max (54 + e - prec) (3 - emax - prec) - e) with 1
    by (unfold prec, emax; lia).
  reflexivity.
Qed.

Lemma pack_rounded_shape sx q e :
  2 ^ 52 <= q <= 2 ^ 53 -> -1074 <= e <= 900 ->
  pack_rounded sx q e
  = if q <? 2 ^ 53 then S754_finite sx (Z.to_pos q) e
    else S754_finite sx (2 ^ 52) (e + 1).
Proof.
  intros Hq He. unfold pack_rounded.
  destruct (Z.ltb_spec q (2 ^ 53)) as [Hlt|Hge].
  - destruct q as [|p|p]; try lia.
    rewrite shr_fexp_53 by lia. cbn [shr_record_of_loc shr_m Z.to_pos].
    destruct (Z.leb_spec e (emax - prec));
      [reflexivity | unfold emax, prec in *; lia].
  - assert (q = 2 ^ 53) by lia. subst q.
    change (2 ^ 53) with (Zpos (2 ^ 53)). rewrite shr_fexp_54 by (cbn; lia).
    cbn [shr_record_of_loc shr_1 shr_m].
    destruct (Z.leb_spec (e + 1) (emax - prec));
      [reflexivity | unfold emax, prec in *; lia].
Qed.

Lemma binary_round_aux_pack sx q e l :
  binary_round_aux prec emax sx q e l
  = let '(mrs, e') := shr_fexp prec emax q e l in
    pack_rounded sx (round_nearest_even (shr_m mrs) (loc_of_shr_record mrs)) e'.
Proof. reflexivity. Qed.

Lemma round_nearest_even_bounds m l :
  m <= round_nearest_even m l <= m + 1.
Proof.
  unfold round_nearest_even.
  destruct l as [|[| |]]; try destruct (Z.even m); lia.
Qed.

Lemma round_nearest_even_down m s :
  round_nearest_even m (loc_of_shr_record (Build_shr_record m false s)) = m.
Proof. destruct s; reflexivity. Qed.

(** A mantissa of 53 digits that is exact is left as it is. *)
Lemma binary_round_aux_exact sx p e :
  2 ^ 52 <= Zpos p < 2 ^ 53 -> -1074 <= e <= 900 ->
  binary_round_aux prec emax sx (Zpos p) e loc_Exact = S754_finite sx p e.
Proof.
  intros Hp He. rewrite binary_round_aux_pack, shr_fexp_53 by lia.
  cbn [shr_record_of_loc shr_m loc_of_shr_record round_nearest_even].
  rewrite pack_rounded_shape by lia.
  destruct (Z.ltb_spec (Zpos p) (2 ^ 53)); [reflexivity | lia].
Qed.

(** The result of rounding a quotient of 53 or 54 digits: its exponent and,
    where the mantissa is forced, its mantissa. *)
Lemma binary_round_aux_shape sx q e l :
  2 ^ 52 <= q < 2 ^ 54 -> -1074 <= e <= 800 ->
  exists mr er,
    binary_round_aux prec emax sx q e l = S754_finite sx mr er
    /\ ((q < 2 ^ 53 /\ er = e)
        \/ (er = e + 1 /\ mr = (2 ^ 52)%positive)
        \/ (2 ^ 53 < q /\ er = e + 1)
        \/ (2 ^ 53 < q /\ er = e + 2 /\ mr = (2 ^ 52)%positive)).
Proof.
  intros Hq He. rewrite binary_round_aux_pack.
  assert (P54 : 2 ^ 54 = 2 * 2 ^ 53) by reflexivity.
  assert (P53 : 2 ^ 53 = 2 * 2 ^ 52) by reflexivity.
  destruct (Z.ltb_spec q (2 ^ 53)) as [Hlt|Hge].
  - destruct q as [|p|p]; try lia.
    rewrite shr_fexp_53 by lia.
    set (q' := round_nearest_even _ _).
    assert (Hq' : Zpos p <= q' <= Zpos p + 1).
    { subst q'. destruct l as [|[| |]]; cbn [shr_record_of_loc shr_m];
        apply round_nearest_even_bounds. }
    rewrite pack_rounded_shape by lia.
    destruct (Z.ltb_spec q' (2 ^ 53)); eexists _, _; (split; [reflexivity|]);
      [left; lia | right; left; split; reflexivity].
  - destruct q as [|p|p]; try lia.
    rewrite shr_fexp_54 by lia.
    destruct p as [p|p|]; [| |cbn in Hge; lia].
    + (* odd quotient: the round bit is set *)
      set (mrs := shr_1 _).
      assert (Hm : shr_m mrs = Zpos p)
        by (subst mrs; destruct l as [|[| |]]; reflexivity).
      set (q' := round_nearest_even _ _).
      assert (Hq' : Zpos p <= q' <= Zpos p + 1).
      { subst q'. rewrite Hm. apply round_nearest_even_bounds. }
      rewrite pack_rounded_shape by lia.
      destruct (Z.ltb_spec q' (2 ^ 53)); eexists _, _; (split; [reflexivity|]).
      * right; right; left. lia.
      * right; right; right. split; [lia | split; [lia | reflexivity]].
    + (* even quotient: rounded down *)
      assert (Hm : exists s, shr_1 (shr_record_of_loc (Zpos p~0) l)
                             = Build_shr_record (Zpos p) false s).
      { destruct l as [|[| |]]; eexists; reflexivity. }
      destruct Hm as (s & ->). cbn [shr_m]. rewrite round_nearest_even_down.
      rewrite pack_rounded_shape by lia.
      destruct (Z.ltb_spec (Zpos p) (2 ^ 53)); [|lia].
      eexists _, _; (split; [reflexivity|]). cbn [Z.to_pos].
      destruct (Z.eq_dec (Zpos p) (2 ^ 52)) as [E|N].
      * right; left. split; [lia|]. now injection E.
      * right; right; left. lia.
Qed.

Lemma iter_xO p s : Zpos (Pos.iter xO p s) = Zpos p * 2 ^ Zpos s.
Proof.
  induction s as [|s IH] using Pos.peano_ind.
  - cbn [Pos.iter]. lia.
  - rewrite Pos.iter_succ, Pos2Z.inj_xO, IH, Pos2Z.inj_succ.
    rewrite Z.pow_succ_r by lia. lia.
Qed.

(** A positive count below 2^53 is held exactly, with a mantissa of 53
    digits. *)
Lemma Number_of_nat_normal k :
  0 < Z.of_nat k < 2 ^ 53 ->
  exists m e,
    Number_of_nat k = S754_finite false m e
    /\ 2 ^ 52 <= Zpos m < 2 ^ 53
    /\ -52 <= e <= 0
    /\ Zpos m = Z.of_nat k * 2 ^ (- e).
Proof.
  intros Hk. unfold Number_of_nat.
  destruct (Z.of_nat k) as [|p|p] eqn:E; try lia.
  cbn [binary_normalize]. unfold binary_round.
  pose proof (digits2_pos_bounds p) as [Bl Bu].
  assert (Hd1 : 1 <= Zpos (digits2_pos p)) by lia.
  set (d := Zpos (digits2_pos p)) in *. clearbody d.
  assert (Hd : 1 <= d <= 53).
  { split; [lia|].
    assert (d - 1 < 53) by (apply (Z.pow_lt_mono_r_iff 2); lia). lia. }
  unfold fexp, emin.
  replace (Z.max (d + 0 - prec) (3 - emax - prec)) with (d - 53)
    by (unfold prec, emax; lia).
  unfold shl_align.
  destruct (d - 53 - 0) as [|s|s] eqn:Es; try lia.
  - assert (d = 53) by lia. subst d.
    change (53 - 1) with 52 in Bl.
    exists p, 0. rewrite binary_round_aux_exact by lia.
    repeat split; lia.
  - assert (Hs : Zpos s = 53 - d) by lia.
    assert (Hm : Zpos (Pos.iter xO p s) = Zpos p * 2 ^ (53 - d))
      by (rewrite iter_xO, Hs; reflexivity).
    assert (P52 : 2 ^ 52 = 2 ^ (d - 1) * 2 ^ (53 - d)).
    { rewrite <- Z.pow_add_r by lia. f_equal. lia. }
    assert (P53 : 2 ^ 53 = 2 ^ d * 2 ^ (53 - d)).
    { rewrite <- Z.pow_add_r by lia. f_equal. lia. }
    assert (Hpos : 0 < 2 ^ (53 - d)) by (apply Z.pow_pos_nonneg; lia).
    assert (Hr : 2 ^ 52 <= Zpos (Pos.iter xO p s) < 2 ^ 53).
    { rewrite Hm, P52, P53. split.
      - apply Z.mul_le_mono_nonneg_r; lia.
      - apply Z.mul_lt_mono_pos_r; lia. }
    exists (Pos.iter xO p s), (d - 53).
    rewrite binary_round_aux_exact by lia.
    repeat split; try lia.
    rewrite Hm. f_equal. f_equal. lia.
Qed.

Lemma SFdiv_core_binary_normal m1 e1 m2 e2 :
  2 ^ 52 <= Zpos m1 < 2 ^ 53 -> 2 ^ 52 <= Zpos m2 < 2 ^ 53 ->
  -52 <= e1 <= 0 -> -52 <= e2 <= 0 ->
  exists q l,
    SFdiv_core_binary prec emax (Zpos m1) e1 (Zpos m2) e2
    = (q, e1 - e2 - 53, l)
    /\ 2 ^ 52 <= q < 2 ^ 54
    /\ (Zpos m1 <= Zpos m2 -> q <= 2 ^ 53).
Proof.
  intros H1 H2 He1 He2. unfold SFdiv_core_binary. cbn [Zdigits2].
  rewrite (digits2_pos_unique m1 53), (digits2_pos_unique m2 53)
    by (cbn; lia).
  unfold fexp, emin.
  replace (Z.min (Z.max (53 + e1 - (53 + e2) - prec) (3 - emax - prec))
                 (e1 - e2))
    with (e1 - e2 - 53) by (unfold prec, emax; lia).
  replace (e1 - e2 - (e1 - e2 - 53)) with 53 by lia.
  rewrite Z.shiftl_mul_pow2 by lia.
  pose proof (Z_div_mod (Zpos m1 * 2 ^ 53) (Zpos m2) eq_refl) as Hdiv.
  destruct (Z.div_eucl (Zpos m1 * 2 ^ 53) (Zpos m2)) as [q r].
  destruct Hdiv as [Hq Hr].
  exists q, (new_location (Zpos m2) r). split; [reflexivity|].
  assert (P54 : 2 ^ 54 = 2 * 2 ^ 53) by reflexivity.
  assert (P53 : 2 ^ 53 = 2 * 2 ^ 52) by reflexivity.
  assert (P52 : 0 < 2 ^ 52) by reflexivity.
  set (a := Zpos m1) in *. set (b := Zpos m2) in *. set (t := 2 ^ 52) in *.
  clearbody a b t. rewrite P53 in *. rewrite P54. clear P53 P54.
  assert (Hat : t * (2 * t) <= a * (2 * t) < 2 * t * (2 * t)).
  { split; [apply Z.mul_le_mono_nonneg_r | apply Z.mul_lt_mono_pos_r]; lia. }
  split; [split|].
  - destruct (Z_lt_le_dec q t) as [Hlt|]; [exfalso | assumption].
    assert (b * (q + 1) <= b * t) by (apply Z.mul_le_mono_nonneg_l; lia).
    assert (b * t < 2 * t * t) by (apply Z.mul_lt_mono_pos_r; lia).
    lia.
  - destruct (Z_lt_le_dec q (2 * (2 * t))) as [|Hge]; [assumption | exfalso].
    assert (b * (2 * (2 * t)) <= b * q)
      by (apply Z.mul_le_mono_nonneg_l; lia).
    assert (t * (2 * (2 * t)) <= b * (2 * (2 * t)))
      by (apply Z.mul_le_mono_nonneg_r; lia).
    lia.
  - intros Hab. destruct (Z_le_gt_dec q (2 * t)) as [|Hgt];
      [assumption | exfalso].
    assert (b * (2 * t + 1) <= b * q)
      by (apply Z.mul_le_mono_nonneg_l; lia).
    assert (a * (2 * t) <= b * (2 * t))
      by (apply Z.mul_le_mono_nonneg_r; lia).
    lia.
Qed.

(** The quotient of two positive normal numbers, the first not above the
    second, is a positive number not above one. *)
Lemma SFdiv_normal_le_one m1 e1 m2 e2 :
  2 ^ 52 <= Zpos m1 < 2 ^ 53 -> 2 ^ 52 <= Zpos m2 < 2 ^ 53 ->
  -52 <= e1 <= 0 -> -52 <= e2 <= 0 ->
  e1 < e2 \/ (e1 = e2 /\ Zpos m1 <= Zpos m2) ->
  in_unit_interval
    (Number_div (S754_finite false m1 e1) (S754_finite false m2 e2)).
Proof.
  intros H1 H2 He1 He2 Hle. unfold Number_div, SFdiv.
  destruct (SFdiv_core_binary_normal m1 e1 m2 e2 H1 H2 He1 He2)
    as (q & l & -> & Hq & Hq').
  cbn [xorb].
  destruct (binary_round_aux_shape false q (e1 - e2 - 53) l Hq)
    as (mr & er & -> & Hshape); [lia|].
  assert (Her : er < -52 \/ (er = -52 /\ mr = (2 ^ 52)%positive)) by lia.
  unfold in_unit_interval, Number_leb, Number_zero, Number_one, SFleb.
  split; [reflexivity|]. cbn [SFcompare].
  destruct Her as [Hlt|[-> ->]]; [|reflexivity].
  destruct (Z.compare_spec er (-52)); [lia | reflexivity | lia].
Qed.


(** Normal forms of two counts are ordered as the counts are. *)
Lemma normal_forms_ordered k n m1 e1 m2 e2 :
  0 < k <= n ->
  2 ^ 52 <= m1 < 2 ^ 53 -> 2 ^ 52 <= m2 < 2 ^ 53 ->
  e1 <= 0 -> e2 <= 0 ->
  m1 = k * 2 ^ (- e1) -> m2 = n * 2 ^ (- e2) ->
  e1 < e2 \/ (e1 = e2 /\ m1 <= m2).
Proof.
  intros Hk H1 H2 He1 He2 E1 E2.
  destruct (Z.lt_trichotomy e1 e2) as [Hlt|[Heq|Hgt]]; [now left| |exfalso].
  - right. split; [assumption|]. subst e2 m1 m2.
    apply Z.mul_le_mono_nonneg_r; [apply Z.pow_nonneg|]; lia.
  - assert (P53 : 2 ^ 53 = 2 * 2 ^ 52) by reflexivity.
    assert (Ep : 2 ^ (- e2) = 2 ^ (- e1) * 2 ^ (e1 - e2)).
    { rewrite <- Z.pow_add_r by lia. f_equal. lia. }
    assert (Hd : 2 <= 2 ^ (e1 - e2)).
    { change 2 with (2 ^ 1) at 1. apply Z.pow_le_mono_r; lia. }
    assert (Ha : 0 < 2 ^ (- e1)) by (apply Z.pow_pos_nonneg; lia).
    assert (Hkn : k * 2 ^ (- e1) <= n * 2 ^ (- e1))
      by (apply Z.mul_le_mono_nonneg_r; lia).
    assert (Hm : (n * 2 ^ (- e1)) * 2 <= (n * 2 ^ (- e1)) * 2 ^ (e1 - e2))
      by (apply Z.mul_le_mono_nonneg_l; nia).
    rewrite Ep in E2. nia.
Qed.

(** The binary64 quotient of a count by a larger positive count below 2^53
    lies between 0 and 1. *)
Lemma Number_div_counts_in_unit_interval k n :
  (k <= n)%nat -> 0 < Z.of_nat n < 2 ^ 53 ->
  in_unit_interval (Number_div (Number_of_nat k) (Number_of_nat n)).
Proof.
  intros Hkn Hn.
  destruct (Number_of_nat_normal n Hn) as (m2 & e2 & -> & Hm2 & He2 & E2).
  destruct k as [|k].
  - split; reflexivity.
  - assert (Hk : 0 < Z.of_nat (S k) < 2 ^ 53) by lia.
    destruct (Number_of_nat_normal (S k) Hk) as (m1 & e1 & -> & Hm1 & He1 & E1).
    apply SFdiv_normal_le_one; try assumption.
    apply (normal_forms_ordered (Z.of_nat (S k)) (Z.of_nat n)); lia.
Qed.

End Binary64.

(* ================================================================== *)
(** * The pinning score calculator *)
(* ================================================================== *)

Section Score.

Lemma jstring_eqb_eq a b : jstring_eqb a b = true <-> a = b.
Proof.
  unfold jstring_eqb. destruct (list_eq_dec N.eq_dec a b); split;
    congruence.
Qed.

Lemma jstring_eqb_refl a : jstring_eqb a a = true.
Proof. now apply jstring_eqb_eq. Qed.

Lemma jstring_eqb_neq a b : a <> b -> jstring_eqb a b = false.
Proof.
  intros H. destruct (jstring_eqb a b) eqn:E; [|reflexivity].
  now apply jstring_eqb_eq in E.
Qed.

Lemma own_In (o : object) k v :
  wf_object o -> In (k, v) o -> own o k = Some v.
Proof.
  unfold wf_object, keys.
  induction o as [|[k' v'] o IH]; cbn [own map fst In]; [easy|].
  intros Hnd [E|Hin].
  - injection E as -> ->. now rewrite jstring_eqb_refl.
  - inversion Hnd as [|? ? Hnotin Hnd']; subst.
    rewrite jstring_eqb_neq; [now apply IH|].
    intros ->. apply Hnotin. now apply (in_map fst) in Hin.
Qed.

Lemma keys_as_object (m : DependencyMap) : keys (as_object m) = map fst m.
Proof. unfold keys, as_object. rewrite map_map. reflexivity. Qed.

(** The loop of [calculatePinningScore] over the names of a typed map adds
    one for each entry that is classified as pinned. *)
Lemma forEach_counts_pinned (o : object) (m : DependencyMap) :
  wf_object o -> incl (as_object m) o ->
  forall acc : nat,
    forEach (keys (as_object m))
      (fun dep pinnedCount =>
         bind (isVersionPinned
                 match own o dep with Some v => v | None => VUndefined end)
              (fun pinned : bool =>
                 Normal (if pinned then pinnedCount + 1 else pinnedCount)))
      acc
    = Normal (acc + List.length (pinned_entries m)).
Proof.
  intros Hwf. induction m as [|[k v] m IH]; intros Hincl acc.
  - cbn. now rewrite Nat.add_0_r.
  - cbn [as_object map keys fst snd forEach].
    rewrite (own_In o k (VString v) Hwf) by (apply Hincl; now left).
    cbn [isVersionPinned call_trim bind].
    change (map fst (map (fun kv => (fst kv, VString (snd kv))) m))
      with (keys (as_object m)).
    rewrite IH by (intros x Hx; apply Hincl; now right).
    change (pinned_entries ((k, v) :: m))
      with (if classified_pinned v then (k, v) :: pinned_entries m
            else pinned_entries m).
    change (classified_pinned v) with (test PINNED_VERSION_REGEX (trim v)).
    destruct (test PINNED_VERSION_REGEX (trim v)); cbn [List.length];
      f_equal; lia.
Qed.

(** What [calculatePinningScore] returns for a typed map. *)
Lemma calculatePinningScore_typed (m : DependencyMap) :
  NoDup (map fst m) ->
  calculatePinningScore (as_object m)
  = Normal (if Nat.eqb (List.length m) 0 then Number_one
            else Number_div (Number_of_nat (List.length (pinned_entries m)))
                            (Number_of_nat (List.length m))).
Proof.
  intros Hnd. unfold calculatePinningScore, Object_keys.
  assert (El : List.length (keys (as_object m)) = List.length m).
  { now rewrite keys_as_object, length_map. }
  rewrite El. destruct (Nat.eqb (List.length m) 0); [reflexivity|].
  rewrite forEach_counts_pinned.
  - reflexivity.
  - unfold wf_object. now rewrite keys_as_object.
  - apply incl_refl.
Qed.

Lemma Permutation_filter_length {A} (f : A -> bool) (l l' : list A) :
  Permutation l l' ->
  List.length (filter f l) = List.length (filter f l').
Proof.
  induction 1 as [|x l l' _ IH|x y l|l l' l'' _ IH1 _ IH2]; cbn.
  - reflexivity.
  - destruct (f x); cbn; congruence.
  - destruct (f x), (f y); reflexivity.
  - congruence.
Qed.

(** C3.  For the empty dependency map the score is exactly [1.0]. *)
Theorem calculatePinningScore_empty :
  calculatePinningScore (as_object []) = Normal Number_one
  /\ Number_one = SFone prec emax.
Proof. split; reflexivity. Qed.

(** C4.  For a non-empty dependency map with [n] entries of which [k] are
    classified as pinned, the score is the binary64 quotient of [k] by [n];
    for [{a: "1.2.3", b: "*"}] it is [0.5]. *)
Theorem calculatePinningScore_fraction :
  (forall m : DependencyMap,
     NoDup (map fst m) -> m <> [] ->
     calculatePinningScore (as_object m)
     = Normal (Number_div (Number_of_nat (List.length (pinned_entries m)))
                          (Number_of_nat (List.length m))))
  /\ calculatePinningScore
       (as_object [(lit "a", lit "1.2.3"); (lit "b", lit "*")])
     = Normal Number_half.
Proof.
  split; [|vm_compute; reflexivity].
  intros m Hnd Hne. rewrite (calculatePinningScore_typed m Hnd).
  destruct m; [easy | reflexivity].
Qed.

(** C7.  Two dependency maps that hold the same name-to-version entries, in
    whatever order, have the same score. *)
Theorem calculatePinningScore_order_independent (m1 m2 : DependencyMap) :
  NoDup (map fst m1) -> NoDup (map fst m2) -> same_entries m1 m2 ->
  calculatePinningScore (as_object m1) = calculatePinningScore (as_object m2).
Proof.
  intros H1 H2 Hsame.
  assert (HP : Permutation m1 m2).
  { apply NoDup_Permutation.
    - exact (NoDup_map_inv _ _ H1).
    - exact (NoDup_map_inv _ _ H2).
    - intros [k v]. apply Hsame. }
  rewrite (calculatePinningScore_typed m1 H1).
  rewrite (calculatePinningScore_typed m2 H2).
  rewrite (Permutation_length HP).
  unfold pinned_entries. now rewrite (Permutation_filter_length _ _ _ HP).
Qed.

End Score.

(* ================================================================== *)
(** * Object spread and the dependency aggregation *)
(* ================================================================== *)

Section Aggregation.

Lemma own_None_iff (o : object) k : own o k = None <-> ~ In k (keys o).
Proof.
  unfold keys. induction o as [|[k' v'] o IH]; cbn [own map fst In].
  - tauto.
  - destruct (jstring_eqb k' k) eqn:E.
    + apply jstring_eqb_eq in E. subst. split; [discriminate | tauto].
    + rewrite IH. split; [|tauto].
      intros H [->|H']; [|tauto]. now rewrite jstring_eqb_refl in E.
Qed.

(** Closes a goal in which the key [k'] just read equals a key [k0] that
    [E0] says differs from [k]: the remaining test on [k] is false. *)
Ltac other_key k k0 k' E0 :=
  let E1 := fresh "E" in
  let E2 := fresh "E" in
  destruct (jstring_eqb k0 k') eqn:E1; [|reflexivity];
  apply jstring_eqb_eq in E1; subst k';
  destruct (jstring_eqb k k0) eqn:E2; [|reflexivity];
  apply jstring_eqb_eq in E2; subst k0;
  now rewrite jstring_eqb_refl in E0.

Lemma own_replace_own (o : object) k v k' :
  own o k <> None ->
  own (replace_own o k v) k' = if jstring_eqb k k' then Some v else own o k'.
Proof.
  induction o as [|[k0 v0] o IH]; cbn [own replace_own]; [easy|].
  destruct (jstring_eqb k0 k) eqn:E0; intros H.
  - apply jstring_eqb_eq in E0. subst k0. cbn [own].
    destruct (jstring_eqb k k'); reflexivity.
  - cbn [own]. rewrite (IH H).
    other_key k k0 k' E0.
Qed.

Lemma own_cons_fresh (o : object) k v k' :
  own ((k, v) :: o) k' = if jstring_eqb k k' then Some v else own o k'.
Proof. reflexivity. Qed.

Lemma own_insert_index n (o : object) k v k' :
  own o k = None ->
  own (insert_index n k v o) k' = if jstring_eqb k k' then Some v else own o k'.
Proof.
  induction o as [|[k0 v0] o IH]; cbn [insert_index]; [reflexivity|].
  intros H. cbn [own] in H.
  destruct (jstring_eqb k0 k) eqn:E0; [discriminate|].
  destruct (array_index k0) as [n'|]; [|reflexivity].
  destruct (n' <? n)%N; [|reflexivity].
  cbn [own]. rewrite (IH H).
  other_key k k0 k' E0.
Qed.

Lemma own_app_fresh (o : object) k v k' :
  own o k = None ->
  own (o ++ [(k, v)]) k' = if jstring_eqb k k' then Some v else own o k'.
Proof.
  induction o as [|[k0 v0] o IH]; cbn [app own]; [reflexivity|].
  destruct (jstring_eqb k0 k) eqn:E0; [discriminate|]. intros H.
  rewrite (IH H).
  other_key k k0 k' E0.
Qed.

(** Reading a property after [CreateDataProperty]. *)
Lemma own_CreateDataProperty (o : object) k v k' :
  own (CreateDataProperty o k v) k'
  = if jstring_eqb k k' then Some v else own o k'.
Proof.
  unfold CreateDataProperty. destruct (own o k) eqn:E.
  - apply own_replace_own. congruence.
  - destruct (array_index k); [now apply own_insert_index
                              | now apply own_app_fresh].
Qed.

Lemma keys_replace_own (o : object) k v : keys (replace_own o k v) = keys o.
Proof.
  unfold keys. induction o as [|[k0 v0] o IH]; cbn [replace_own map fst];
    [reflexivity|].
  destruct (jstring_eqb k0 k); cbn [map fst]; congruence.
Qed.

Lemma keys_insert_index n (o : object) k v :
  Permutation (keys (insert_index n k v o)) (k :: keys o).
Proof.
  unfold keys. induction o as [|[k0 v0] o IH]; cbn [insert_index map fst];
    [reflexivity|].
  destruct (array_index k0) as [n'|]; [|reflexivity].
  destruct (n' <? n)%N; [|reflexivity].
  cbn [map fst]. rewrite IH. apply perm_swap.
Qed.

(** The keys after [CreateDataProperty]: the same, or one more. *)
Lemma keys_CreateDataProperty (o : object) k v :
  Permutation (keys (CreateDataProperty o k v))
    (match own o k with Some _ => keys o | None => k :: keys o end).
Proof.
  unfold CreateDataProperty. destruct (own o k) eqn:E.
  - now rewrite keys_replace_own.
  - destruct (array_index k); [apply keys_insert_index|].
    unfold keys. rewrite map_app. cbn [map fst].
    symmetry. apply Permutation_cons_append.
Qed.

Lemma wf_CreateDataProperty (o : object) k v :
  wf_object o -> wf_object (CreateDataProperty o k v).
Proof.
  unfold wf_object. intros H.
  eapply Permutation_NoDup;
    [symmetry; apply keys_CreateDataProperty|].
  destruct (own o k) eqn:E; [exact H|].
  constructor; [now apply own_None_iff | exact H].
Qed.

Lemma length_CreateDataProperty (o : object) k v :
  List.length (CreateDataProperty o k v) <= S (List.length o).
Proof.
  pose proof (Permutation_length (keys_CreateDataProperty o k v)) as H.
  unfold keys in H. rewrite length_map in H. rewrite H.
  destruct (own o k); cbn [List.length]; rewrite length_map; lia.
Qed.

Lemma wf_spread (target : object) source :
  wf_object target -> wf_object (spread target source).
Proof.
  unfold spread. generalize (enumerable_own source) as l.
  intros l. revert target.
  induction l as [|[k v] l IH]; intros target H; cbn [fold_left fst snd];
    [exact H|].
  apply IH. now apply wf_CreateDataProperty.
Qed.

Lemma length_spread (target : object) source :
  List.length (spread target source)
  <= List.length target + List.length (enumerable_own source).
Proof.
  unfold spread. generalize (enumerable_own source) as l.
  intros l. revert target.
  induction l as [|[k v] l IH]; intros target; cbn [fold_left fst snd];
    cbn [List.length]; [lia|].
  specialize (IH (CreateDataProperty target k v)).
  pose proof (length_CreateDataProperty target k v). lia.
Qed.

(** Reading a property after spreading an object: the source answers first. *)
Lemma own_spread_object (target src : object) k :
  wf_object src ->
  own (spread target (VObject src)) k
  = match own src k with Some v => Some v | None => own target k end.
Proof.
  unfold spread, wf_object, keys. cbn [enumerable_own]. revert target.
  induction src as [|[k0 v0] src IH]; intros target Hnd;
    cbn [fold_left fst snd own map]; [reflexivity|].
  inversion Hnd as [|? ? Hnotin Hnd']; subst.
  rewrite (IH _ Hnd'), own_CreateDataProperty.
  destruct (jstring_eqb k0 k) eqn:E; [|reflexivity].
  apply jstring_eqb_eq in E. subst k0.
  apply own_None_iff in Hnotin. now rewrite Hnotin.
Qed.

Lemma spread_undefined (target : object) : spread target VUndefined = target.
Proof. reflexivity. Qed.

(** Spreading a category that is absent or a mapping. *)
Lemma own_spread_category (manifest target : object) name k :
  absent_or_mapping manifest name ->
  own (spread target
         match own manifest name with Some x => x | None => VUndefined end) k
  = match own (category manifest name) k with
    | Some v => Some v
    | None => own target k
    end.
Proof.
  unfold category. intros [E|(o & E & Hwf)]; rewrite E.
  - reflexivity.
  - now apply own_spread_object.
Qed.

(** C6.  When each of the four categories of the decoded manifest is absent
    or a mapping, [allDependencies] is one map in which every name has the
    version of the last category, in the order [dependencies],
    [devDependencies], [peerDependencies], [optionalDependencies], that
    declares it; an absent category contributes nothing.  With
    [dependencies = {x: "1.0.0"}] and [devDependencies = {x: "*"}] the merged
    map has [x: "*"]. *)
Theorem allDependencies_later_wins :
  (forall manifest : object,
     (forall name, In name category_names -> absent_or_mapping manifest name) ->
     exists all : object,
       allDependencies (VObject manifest) = Normal all
       /\ wf_object all
       /\ forall name,
            own all name
            = later_wins (map (category manifest) category_names) name)
  /\ allDependencies
       (VObject
          [(lit "dependencies", VObject [(lit "x", VString (lit "1.0.0"))]);
           (lit "devDependencies", VObject [(lit "x", VString (lit "*"))])])
     = Normal [(lit "x", VString (lit "*"))].
Proof.
  split; [|vm_compute; reflexivity].
  intros manifest H. unfold allDependencies. cbn [Get bind].
  eexists. split; [reflexivity|]. split.
  - repeat apply wf_spread. constructor.
  - intros k. cbn [category_names map later_wins].
    rewrite !own_spread_category by (apply H; cbn; tauto).
    cbn [own].
    destruct (own (category manifest (lit "optionalDependencies")) k);
      [reflexivity|].
    destruct (own (category manifest (lit "peerDependencies")) k);
      [reflexivity|].
    destruct (own (category manifest (lit "devDependencies")) k);
      [reflexivity|].
    destruct (own (category manifest (lit "dependencies")) k); reflexivity.
Qed.

End Aggregation.

(* ================================================================== *)
(** * The manifest fetcher and the orchestrator *)
(* ================================================================== *)

Section Fetcher.

Variable env : Environment.

(** Reading the message of an Error object gives its message. *)
Lemma read_message_Error_object e :
  is_Error_object e = true ->
  read_message env e = Normal (VString (message env e)).
Proof. destruct e; [reflexivity | reflexivity | discriminate]. Qed.


(** What the engine throws in this program is an Error object. *)
Lemma Get_throws v p e : Get v p = Throw e -> is_Error_object e = true.
Proof. destruct v; cbn; intros [= <-]; reflexivity. Qed.

Lemma call_trim_throws v e :
  call_trim v = Throw e -> is_Error_object e = true.
Proof. destruct v; cbn; intros [= <-]; reflexivity. Qed.

Lemma forEach_throws {S} (l : list jstring)
  (callback : jstring -> S -> completion S) :
  (forall x s e, callback x s = Throw e -> is_Error_object e = true) ->
  forall s e, forEach l callback s = Throw e -> is_Error_object e = true.
Proof.
  intros Hcb. induction l as [|x l IH]; intros s e; cbn [forEach];
    [discriminate|].
  destruct (callback x s) as [s'|e'] eqn:E; cbn [bind].
  - apply IH.
  - intros [= <-]. exact (Hcb _ _ _ E).
Qed.

Lemma calculatePinningScore_throws (o : object) e :
  calculatePinningScore o = Throw e -> is_Error_object e = true.
Proof.
  unfold calculatePinningScore.
  destruct (Nat.eqb _ 0); [discriminate|].
  destruct (forEach _ _ 0) as [n|e'] eqn:E; cbn [bind]; [discriminate|].
  intros [= <-]. revert E. apply forEach_throws.
  intros x s e0. unfold isVersionPinned.
  destruct (call_trim _) as [t|e1] eqn:Et; cbn [bind]; [discriminate|].
  intros [= <-]. exact (call_trim_throws _ _ Et).
Qed.

Lemma allDependencies_throws packageJson e :
  allDependencies packageJson = Throw e -> is_Error_object e = true.
Proof.
  unfold allDependencies.
  destruct (Get packageJson (lit "dependencies")) eqn:E1; cbn [bind];
    [|intros [= <-]; exact (Get_throws _ _ _ E1)].
  destruct (Get packageJson (lit "devDependencies")) eqn:E2; cbn [bind];
    [|intros [= <-]; exact (Get_throws _ _ _ E2)].
  destruct (Get packageJson (lit "peerDependencies")) eqn:E3; cbn [bind];
    [|intros [= <-]; exact (Get_throws _ _ _ E3)].
  destruct (Get packageJson (lit "optionalDependencies")) eqn:E4;
    cbn [bind]; [discriminate|].
  intros [= <-]. exact (Get_throws _ _ _ E4).
Qed.

(** The three ways the fetcher ends: what is thrown in its [try] block is
    an Error object, whose message the handler can read. *)
Lemma fetch_ends owner repo headers log :
  (exists score,
     _getDependencyPinningFractionFromPackageJson env owner repo headers log
     = (Normal (Some score), log))
  \/ _getDependencyPinningFractionFromPackageJson env owner repo headers log
     = (Normal None, log ++ [content_not_found owner repo])
  \/ (exists e,
        _getDependencyPinningFractionFromPackageJson env owner repo headers
          log
        = (Normal None, log ++ [failed_to_fetch env owner repo e])).
Proof.
  unfold _getDependencyPinningFractionFromPackageJson, try_catch, mbind, lift,
    ret, logger_error.
  fold (contents_url owner repo).
  destruct (axios_get env _ headers) as [resp|e] eqn:Hget.
  2: { right; right. exists e.
       now rewrite (read_message_Error_object e
                      (axios_get_throws env _ _ _ Hget)). }
  destruct (Get (data resp) (lit "content")) as [content|e] eqn:Hc.
  2: { right; right. exists e.
       now rewrite (read_message_Error_object e (Get_throws _ _ _ Hc)). }
  destruct (ToBoolean content); [|right; left; reflexivity].
  destruct (Buffer_from env content (lit "base64")) as [buffer|e] eqn:Hb.
  2: { right; right. exists e.
       now rewrite (read_message_Error_object e
                      (Buffer_from_throws env _ _ _ Hb)). }
  destruct (JSON_parse env _) as [packageJson|e] eqn:Hp.
  2: { right; right. exists e.
       now rewrite (read_message_Error_object e
                      (JSON_parse_throws env _ _ Hp)). }
  destruct (allDependencies packageJson) as [all|e] eqn:Hall.
  2: { right; right. exists e.
       now rewrite (read_message_Error_object e
                      (allDependencies_throws _ _ Hall)). }
  destruct (calculatePinningScore all) as [score|e] eqn:Hs.
  2: { right; right. exists e.
       now rewrite (read_message_Error_object e
                      (calculatePinningScore_throws _ _ Hs)). }
  left. now exists score.
Qed.

(** No exception escapes the fetcher. *)
Lemma fetch_returns owner repo headers log :
  exists r log',
    _getDependencyPinningFractionFromPackageJson env owner repo headers log
    = (Normal r, log').
Proof.
  destruct (fetch_ends owner repo headers log) as [(x & ->)|[->|(e & ->)]];
    now eexists _, _.
Qed.

(** The fetcher when the content read from the body is falsy. *)
Lemma fetch_falsy_content owner repo headers log packageResponse content :
  axios_get env (contents_url owner repo) headers = Normal packageResponse ->
  Get (data packageResponse) (lit "content") = Normal content ->
  ToBoolean content = false ->
  _getDependencyPinningFractionFromPackageJson env owner repo headers log
  = (Normal None, log ++ [content_not_found owner repo]).
Proof.
  intros Hget Hcontent Hfalsy.
  unfold _getDependencyPinningFractionFromPackageJson, try_catch, mbind, lift.
  fold (contents_url owner repo).
  rewrite Hget, Hcontent, Hfalsy. reflexivity.
Qed.

Lemma error_naming_content_not_found owner repo :
  error_naming owner repo (content_not_found owner repo).
Proof.
  exists (lit "package.json content not found for "), (lit "."), [].
  reflexivity.
Qed.

Lemma error_naming_failed_to_fetch owner repo e :
  error_naming owner repo (failed_to_fetch env owner repo e).
Proof.
  exists (lit "Failed to fetch package.json for "), (lit ":"),
    [VString (message env e)].
  reflexivity.
Qed.

(** C8.  When the body of the response has no [content] field, the fetcher
    writes one error record that names [owner/repo] and returns [null]; it
    does not throw.  The record is the content-not-found one, unless the body
    is [undefined] or [null], where reading the field fails and the record is
    the failed-to-fetch one. *)
Theorem fetch_without_content owner repo headers log packageResponse :
  axios_get env (contents_url owner repo) headers = Normal packageResponse ->
  has_field (data packageResponse) (lit "content") = false ->
  exists record,
    _getDependencyPinningFractionFromPackageJson env owner repo headers log
    = (Normal None, log ++ [record])
    /\ error_naming owner repo record
    /\ record
       = match Get (data packageResponse) (lit "content") with
         | Normal _ => content_not_found owner repo
         | Throw e => failed_to_fetch env owner repo e
         end.
Proof.
  intros Hget Hfield.
  destruct (Get (data packageResponse) (lit "content")) as [content|e] eqn:E.
  - exists (content_not_found owner repo).
    split; [|split; [apply error_naming_content_not_found | reflexivity]].
    apply fetch_falsy_content with (1 := Hget) (2 := E).
    unfold Get, has_field in *.
    destruct (data packageResponse) as [| | | | | |o];
      try discriminate; try (injection E as <-; reflexivity).
    destruct (own o (lit "content")); [discriminate|].
    injection E as <-. reflexivity.
  - exists (failed_to_fetch env owner repo e).
    split; [|split; [apply error_naming_failed_to_fetch | reflexivity]].
    unfold _getDependencyPinningFractionFromPackageJson, try_catch, mbind, lift.
    fold (contents_url owner repo). rewrite Hget, E.
    now rewrite (read_message_Error_object e (Get_throws _ _ _ E)).
Qed.

(** C9.  When the HTTP call of the fetcher fails (the request, the base64
    decoding or the JSON parsing throws), the fetcher writes one error record
    that carries the failure message and returns [null]; it does not
    throw. *)
Theorem fetch_failure_is_null owner repo headers log error :
  fetch_fails env owner repo headers error ->
  _getDependencyPinningFractionFromPackageJson env owner repo headers log
  = (Normal None, log ++ [failed_to_fetch env owner repo error]).
Proof.
  intros H.
  unfold _getDependencyPinningFractionFromPackageJson, try_catch, mbind, lift.
  fold (contents_url owner repo).
  destruct H as [Hget | resp content Hget Hc Ht Hb
                | resp content buffer Hget Hc Ht Hb Hp].
  - rewrite Hget.
    now rewrite (read_message_Error_object error
                   (axios_get_throws env _ _ _ Hget)).
  - rewrite Hget, Hc, Ht, Hb.
    now rewrite (read_message_Error_object error
                   (Buffer_from_throws env _ _ _ Hb)).
  - rewrite Hget, Hc, Ht, Hb, Hp.
    now rewrite (read_message_Error_object error
                   (JSON_parse_throws env _ _ Hp)).
Qed.

(** C10.  When the body of the response has a [content] field whose value
    is falsy (the empty string, [null], [false], a zero), the fetcher takes
    the missing-content path: it writes the content-not-found record and
    returns [null]. *)
Theorem fetch_falsy_content_field owner repo headers log packageResponse
  body content :
  axios_get env (contents_url owner repo) headers = Normal packageResponse ->
  data packageResponse = VObject body ->
  own body (lit "content") = Some content ->
  ToBoolean content = false ->
  has_field (data packageResponse) (lit "content") = true
  /\ _getDependencyPinningFractionFromPackageJson env owner repo headers log
     = (Normal None, log ++ [content_not_found owner repo]).
Proof.
  intros Hget Hbody Hown Hfalsy. split.
  - rewrite Hbody. cbn [has_field]. now rewrite Hown.
  - apply fetch_falsy_content with (1 := Hget) (3 := Hfalsy).
    rewrite Hbody. cbn [Get]. now rewrite Hown.
Qed.

(** The orchestrator after a failed URL parse: the handler reads the
    message of what was thrown. *)
Lemma getDependencyPinningFraction_unparsed url token log e :
  parseGitHubUrl env url = Throw e ->
  getDependencyPinningFraction env url token log
  = match read_message env e with
    | Normal detail => (Normal None, log ++ [error_processing url detail])
    | Throw e' => (Throw e', log)
    end.
Proof.
  intros Hparse. unfold getDependencyPinningFraction, try_catch, mbind at 1.
  unfold get_axios_params, mbind, lift, logger_debug, logger_error, ret.
  rewrite Hparse. destruct (read_message env e); reflexivity.
Qed.


End Fetcher.

(* ================================================================== *)
(** * The range of the score *)
(* ================================================================== *)

Section Range.

(** The loop of [calculatePinningScore] counts at most one per name. *)
Lemma forEach_count_bound (o : object) (l : list jstring) :
  forall acc k : nat,
    forEach l
      (fun dep pinnedCount =>
         bind (isVersionPinned
                 match own o dep with Some v => v | None => VUndefined end)
              (fun pinned : bool =>
                 Normal (if pinned then pinnedCount + 1 else pinnedCount)))
      acc
    = Normal k ->
    acc <= k <= acc + List.length l.
Proof.
  induction l as [|x l IH]; intros acc k; cbn [forEach List.length].
  - intros [= <-]. lia.
  - destruct (isVersionPinned _) as [[|]|e]; cbn [bind]; [| |discriminate];
      intros H; apply IH in H; lia.
Qed.

(** Whatever object it is given, [calculatePinningScore] throws or returns
    a number between 0 and 1. *)
Lemma calculatePinningScore_in_unit_interval (o : object) (x : Number) :
  (Z.of_nat (List.length o) < 2 ^ 53)%Z ->
  calculatePinningScore o = Normal x -> in_unit_interval x.
Proof.
  intros Hlen. unfold calculatePinningScore, Object_keys, keys.
  rewrite length_map. destruct (Nat.eqb_spec (List.length o) 0) as [|Hne].
  - intros [= <-]. split; reflexivity.
  - destruct (forEach _ _ _) as [k|e] eqn:E; cbn [bind]; [|discriminate].
    intros [= <-]. apply forEach_count_bound in E.
    rewrite length_map in E.
    apply Number_div_counts_in_unit_interval; lia.
Qed.

(** The merged map holds no more entries than the categories together. *)
Lemma allDependencies_length (packageJson : value) (all : object) :
  allDependencies packageJson = Normal all ->
  List.length all <= manifest_entries packageJson.
Proof.
  unfold allDependencies, manifest_entries, declared.
  cbn [category_names map list_sum fold_right].
  destruct (Get packageJson (lit "dependencies")) as [d1|]; [|discriminate].
  destruct (Get packageJson (lit "devDependencies")) as [d2|];
    [|discriminate].
  destruct (Get packageJson (lit "peerDependencies")) as [d3|];
    [|discriminate].
  destruct (Get packageJson (lit "optionalDependencies")) as [d4|];
    [|discriminate].
  cbn [bind]. intros [= <-].
  pose proof (length_spread [] d1) as H1.
  pose proof (length_spread (spread [] d1) d2) as H2.
  pose proof (length_spread (spread (spread [] d1) d2) d3) as H3.
  pose proof (length_spread (spread (spread (spread [] d1) d2) d3) d4) as H4.
  cbn [List.length] in H1. lia.
Qed.

(** A number returned by the fetcher is the score of a parsed manifest. *)
Lemma fetch_number env owner repo headers log x log' :
  _getDependencyPinningFractionFromPackageJson env owner repo headers log
  = (Normal (Some x), log') ->
  exists text packageJson all,
    JSON_parse env text = Normal packageJson
    /\ allDependencies packageJson = Normal all
    /\ calculatePinningScore all = Normal x.
Proof.
  unfold _getDependencyPinningFractionFromPackageJson, try_catch, mbind, lift,
    ret, logger_error.
  destruct (axios_get env _ headers) as [resp|];
    [|destruct (read_message _ _); discriminate].
  destruct (Get (data resp) (lit "content")) as [content|];
    [|destruct (read_message _ _); discriminate].
  destruct (ToBoolean content); [|discriminate].
  destruct (Buffer_from env content (lit "base64")) as [buffer|];
    [|destruct (read_message _ _); discriminate].
  destruct (JSON_parse env _) as [packageJson|] eqn:Hparse;
    [|destruct (read_message _ _); discriminate].
  destruct (allDependencies packageJson) as [all|] eqn:Hall;
    [|destruct (read_message _ _); discriminate].
  destruct (calculatePinningScore all) as [score|] eqn:Hscore;
    [|destruct (read_message _ _); discriminate].
  intros [= <- _].
  exists (Buffer_toString env buffer (lit "utf-8")), packageJson, all.
  auto.
Qed.

(** A number returned by the orchestrator is one the fetcher returned. *)
Lemma getDependencyPinningFraction_number env url token log x log' :
  getDependencyPinningFraction env url token log = (Normal (Some x), log') ->
  exists owner repo headers log0,
    _getDependencyPinningFractionFromPackageJson env owner repo headers log0
    = (Normal (Some x), log').
Proof.
  unfold getDependencyPinningFraction, try_catch, mbind at 1.
  unfold get_axios_params, mbind, lift, logger_debug, logger_error, ret.
  destruct (parseGitHubUrl env url) as [[owner repo]|];
    [|destruct (read_message _ _); discriminate].
  cbn [fst snd].
  match goal with
  | |- context [_getDependencyPinningFractionFromPackageJson env ?o ?r ?h ?l] =>
      destruct (fetch_returns env o r h l) as (res & l' & E);
      rewrite E; intros [= -> ->]; exists o, r, h, l; exact E
  end.
Qed.

(** C5.  The score of a dependency map lies between 0 and 1, and so does
    every number [getDependencyPinningFraction] returns.  A map has fewer
    than 2^53 entries, and so have the categories of a manifest that
    [JSON.parse] returns. *)
Theorem score_in_unit_interval :
  (forall m : DependencyMap,
     NoDup (map fst m) -> (Z.of_nat (List.length m) < 2 ^ 53)%Z ->
     exists x,
       calculatePinningScore (as_object m) = Normal x /\ in_unit_interval x)
  /\ (forall env url token log x log',
        (forall text packageJson,
           JSON_parse env text = Normal packageJson ->
           (Z.of_nat (manifest_entries packageJson) < 2 ^ 53)%Z) ->
        getDependencyPinningFraction env url token log
        = (Normal (Some x), log') ->
        in_unit_interval x).
Proof.
  split.
  - intros m Hnd Hlen. eexists. split.
    + apply (calculatePinningScore_typed m Hnd).
    + apply calculatePinningScore_in_unit_interval with (o := as_object m).
      * unfold as_object. now rewrite length_map.
      * apply (calculatePinningScore_typed m Hnd).
  - intros env url token log x log' Hsize H.
    apply getDependencyPinningFraction_number in H.
    destruct H as (owner & repo & headers & log0 & H).
    apply fetch_number in H.
    destruct H as (text & packageJson & all & Hparse & Hall & Hscore).
    apply calculatePinningScore_in_unit_interval with (o := all);
      [|exact Hscore].
    apply allDependencies_length in Hall. apply Hsize in Hparse. lia.
Qed.

End Range.

(* ================================================================== *)
(** * Examples *)
(* ================================================================== *)

Section Examples.

Ltac distinct_keys :=
  unfold wf_object, keys;
  repeat constructor; vm_compute; intuition discriminate.

Lemma sample_map_distinct : NoDup (map fst sample_map).
Proof. distinct_keys. Defined.

Lemma sample_map_reordered_distinct : NoDup (map fst sample_map_reordered).
Proof. distinct_keys. Defined.

(** The score of [{a: "1.2.3", b: "*"}] is the quotient of 1 by 2. *)
Lemma calculatePinningScore_fraction_witness :
  NoDup (map fst sample_map) /\ sample_map <> []
  /\ calculatePinningScore (as_object sample_map)
     = Normal (Number_div
                 (Number_of_nat (List.length (pinned_entries sample_map)))
                 (Number_of_nat (List.length sample_map))).
Proof.
  split; [exact sample_map_distinct|]. split; [discriminate|].
  apply (proj1 calculatePinningScore_fraction sample_map).
  - exact sample_map_distinct.
  - discriminate.
Defined.

(** [{a: "1.2.3", b: "*"}] and [{b: "*", a: "1.2.3"}] have the same score. *)
Lemma calculatePinningScore_order_independent_witness :
  NoDup (map fst sample_map) /\ NoDup (map fst sample_map_reordered)
  /\ same_entries sample_map sample_map_reordered
  /\ calculatePinningScore (as_object sample_map)
     = calculatePinningScore (as_object sample_map_reordered).
Proof.
  assert (H : same_entries sample_map sample_map_reordered).
  { intros name version. unfold sample_map, sample_map_reordered.
    cbn [In]. tauto. }
  split; [exact sample_map_distinct|].
  split; [exact sample_map_reordered_distinct|].
  split; [exact H|].
  exact (calculatePinningScore_order_independent sample_map
           sample_map_reordered sample_map_distinct
           sample_map_reordered_distinct H).
Defined.

Lemma sample_manifest_categories :
  forall name,
    In name category_names -> absent_or_mapping sample_manifest name.
Proof.
  intros name [<-|[<-|[<-|[<-|[]]]]].
  - right. eexists. split; [reflexivity | distinct_keys].
  - right. eexists. split; [reflexivity | distinct_keys].
  - left. reflexivity.
  - left. reflexivity.
Defined.

(** The merged map of a manifest with [dependencies] and [devDependencies]
    only. *)
Lemma allDependencies_later_wins_witness :
  (forall name,
     In name category_names -> absent_or_mapping sample_manifest name)
  /\ exists all : object,
       allDependencies (VObject sample_manifest) = Normal all
       /\ wf_object all
       /\ forall name,
            own all name
            = later_wins (map (category sample_manifest) category_names) name.
Proof.
  split; [exact sample_manifest_categories|].
  exact (proj1 allDependencies_later_wins sample_manifest
           sample_manifest_categories).
Defined.

(** A response whose body is [{}]. *)
Lemma fetch_without_content_witness :
  let env := sample_environment (Normal (Response (VObject []))) (Normal VNull)
  in
  axios_get env (contents_url (lit "octocat") (lit "hello-world"))
    sample_headers = Normal (Response (VObject []))
  /\ has_field (VObject []) (lit "content") = false
  /\ exists record,
       _getDependencyPinningFractionFromPackageJson env (lit "octocat")
         (lit "hello-world") sample_headers []
       = (Normal None, [] ++ [record])
       /\ error_naming (lit "octocat") (lit "hello-world") record
       /\ record
          = match Get (VObject []) (lit "content") with
            | Normal _ =>
                content_not_found (lit "octocat") (lit "hello-world")
            | Throw e =>
                failed_to_fetch env (lit "octocat") (lit "hello-world") e
            end.
Proof.
  intros env. split; [reflexivity|]. split; [reflexivity|].
  exact (fetch_without_content env (lit "octocat") (lit "hello-world")
           sample_headers [] (Response (VObject [])) eq_refl eq_refl).
Defined.

(** A request that fails with a network error. *)
Lemma fetch_failure_is_null_witness :
  let error := ThrownError (lit "Network Error") in
  let env := sample_environment (Throw error) (Normal VNull) in
  fetch_fails env (lit "octocat") (lit "hello-world") sample_headers error
  /\ _getDependencyPinningFractionFromPackageJson env (lit "octocat")
       (lit "hello-world") sample_headers []
     = (Normal None,
        [] ++ [failed_to_fetch env (lit "octocat") (lit "hello-world") error]).
Proof.
  intros error env.
  assert (H : fetch_fails env (lit "octocat") (lit "hello-world")
                sample_headers error)
    by (apply request_fails; reflexivity).
  split; [exact H|].
  exact (fetch_failure_is_null env (lit "octocat") (lit "hello-world")
           sample_headers [] error H).
Defined.

(** A response whose body is [{content: ""}]. *)
Lemma fetch_falsy_content_field_witness :
  let body := [(lit "content", VString [])] in
  let env := sample_environment (Normal (Response (VObject body)))
               (Normal VNull) in
  axios_get env (contents_url (lit "octocat") (lit "hello-world"))
    sample_headers = Normal (Response (VObject body))
  /\ own body (lit "content") = Some (VString [])
  /\ ToBoolean (VString []) = false
  /\ has_field (VObject body) (lit "content") = true
  /\ _getDependencyPinningFractionFromPackageJson env (lit "octocat")
       (lit "hello-world") sample_headers []
     = (Normal None,
        [] ++ [content_not_found (lit "octocat") (lit "hello-world")]).
Proof.
  intros body env. split; [reflexivity|]. split; [reflexivity|].
  split; [reflexivity|].
  exact (fetch_falsy_content_field env (lit "octocat") (lit "hello-world")
           sample_headers [] (Response (VObject body)) body (VString [])
           eq_refl eq_refl eq_refl eq_refl).
Defined.

(** The score of the sample map, and the run on a manifest with
    [dependencies: {lodash: "^4.17.21"}] and [devDependencies: {jest:
    "latest"}], which returns [0.5]. *)
Lemma score_in_unit_interval_witness :
  let env :=
    sample_environment
      (Normal (Response (VObject [(lit "content", VString (lit "e30="))])))
      (Normal (VObject sample_manifest)) in
  let debug :=
    LogDebug (lit "Generated axios parameters")
      [VObject [(lit "owner", VString (lit "octocat"));
                (lit "repo", VString (lit "hello-world"))]] in
  (NoDup (map fst sample_map)
   /\ (Z.of_nat (List.length sample_map) < 2 ^ 53)%Z
   /\ exists x,
        calculatePinningScore (as_object sample_map) = Normal x
        /\ in_unit_interval x)
  /\ ((forall text packageJson,
         JSON_parse env text = Normal packageJson ->
         (Z.of_nat (manifest_entries packageJson) < 2 ^ 53)%Z)
      /\ getDependencyPinningFraction env (lit "https://github.com/o/r")
           (lit "t") []
         = (Normal (Some Number_half), [debug])
      /\ in_unit_interval Number_half).
Proof.
  intros env debug.
  assert (Hlen : (Z.of_nat (List.length sample_map) < 2 ^ 53)%Z)
    by reflexivity.
  assert (Hsize : forall text packageJson,
             JSON_parse env text = Normal packageJson ->
             (Z.of_nat (manifest_entries packageJson) < 2 ^ 53)%Z)
    by (intros text packageJson [= <-]; reflexivity).
  assert (Hrun : getDependencyPinningFraction env
                   (lit "https://github.com/o/r") (lit "t") []
                 = (Normal (Some Number_half), [debug]))
    by (vm_compute; reflexivity).
  split.
  - split; [exact sample_map_distinct|]. split; [exact Hlen|].
    exact (proj1 score_in_unit_interval sample_map sample_map_distinct Hlen).
  - split; [exact Hsize|]. split; [exact Hrun|].
    exact (proj2 score_in_unit_interval env (lit "https://github.com/o/r")
             (lit "t") [] Number_half [debug] Hsize Hrun).
Defined.

End Examples.

(* ================================================================== *)
(** * Quotients of counts that are exactly 0 or 1 *)
(* ================================================================== *)

Section Quotients.

Local Open Scope Z_scope.

(** The quotient digits of two normal mantissas never reach the values from
    which rounding would carry into a further digit. *)
Lemma SFdiv_core_binary_tight m1 e1 m2 e2 :
  2 ^ 52 <= Zpos m1 < 2 ^ 53 -> 2 ^ 52 <= Zpos m2 < 2 ^ 53 ->
  -52 <= e1 <= 0 -> -52 <= e2 <= 0 ->
  exists q l,
    SFdiv_core_binary prec emax (Zpos m1) e1 (Zpos m2) e2
    = (q, e1 - e2 - 53, l)
    /\ 2 ^ 52 <= q <= 2 ^ 54 - 2
    /\ (Zpos m1 < Zpos m2 -> q <= 2 ^ 53 - 2)
    /\ (Zpos m1 = Zpos m2 -> q = 2 ^ 53).
Proof.
  intros H1 H2 He1 He2. unfold SFdiv_core_binary. cbn [Zdigits2].
  rewrite (digits2_pos_unique m1 53), (digits2_pos_unique m2 53)
    by (cbn; lia).
  unfold fexp, emin.
  replace (Z.min (Z.max (53 + e1 - (53 + e2) - prec) (3 - emax - prec))
                 (e1 - e2))
    with (e1 - e2 - 53) by (unfold prec, emax; lia).
  replace (e1 - e2 - (e1 - e2 - 53)) with 53 by lia.
  rewrite Z.shiftl_mul_pow2 by lia.
  pose proof (Z_div_mod (Zpos m1 * 2 ^ 53) (Zpos m2) eq_refl) as Hdiv.
  destruct (Z.div_eucl (Zpos m1 * 2 ^ 53) (Zpos m2)) as [q r].
  destruct Hdiv as [Hq Hr].
  exists q, (new_location (Zpos m2) r). split; [reflexivity|].
  assert (P54 : 2 ^ 54 = 2 * 2 ^ 53) by reflexivity.
  assert (P52 : 2 ^ 53 = 2 * 2 ^ 52) by reflexivity.
  assert (Pp : 0 < 2 ^ 52) by reflexivity.
  set (a := Zpos m1) in *. set (b := Zpos m2) in *. set (t := 2 ^ 53) in *.
  set (h := 2 ^ 52) in *. clearbody a b t h. rewrite P54. clear P54.
  assert (Ha : a * t <= (t - 1) * t)
    by (apply Z.mul_le_mono_nonneg_r; lia).
  split; [split|split].
  - destruct (Z_lt_le_dec q h) as [Hlt|]; [exfalso | assumption].
    assert (b * (q + 1) <= b * h) by (apply Z.mul_le_mono_nonneg_l; lia).
    assert (b * h < t * h) by (apply Z.mul_lt_mono_pos_r; lia).
    assert (h * t <= a * t) by (apply Z.mul_le_mono_nonneg_r; lia).
    lia.
  - destruct (Z_le_gt_dec q (2 * t - 2)) as [|Hgt]; [assumption | exfalso].
    assert (b * (2 * t - 1) <= b * q)
      by (apply Z.mul_le_mono_nonneg_l; lia).
    assert (h * t <= b * t) by (apply Z.mul_le_mono_nonneg_r; lia).
    lia.
  - intros Hab. destruct (Z_le_gt_dec q (t - 2)) as [|Hgt];
      [assumption | exfalso].
    assert (b * (t - 1) <= b * q) by (apply Z.mul_le_mono_nonneg_l; lia).
    assert (a * t <= (b - 1) * t) by (apply Z.mul_le_mono_nonneg_r; lia).
    lia.
  - intros Hab. rewrite Hab in Hq.
    assert (b * t = b * q + r -> q = t) by nia. auto.
Qed.

(** The exponent after rounding, for quotient digits short of a carry. *)
Lemma binary_round_aux_exponent sx q e l :
  2 ^ 52 <= q <= 2 ^ 54 - 2 -> -1074 <= e <= 800 ->
  exists mr er,
    binary_round_aux prec emax sx q e l = S754_finite sx mr er
    /\ e <= er <= e + 1
    /\ (q <= 2 ^ 53 - 2 -> er = e).
Proof.
  intros Hq He. rewrite binary_round_aux_pack.
  assert (P54 : 2 ^ 54 = 2 * 2 ^ 53) by reflexivity.
  assert (P53 : 2 ^ 53 = 2 * 2 ^ 52) by reflexivity.
  destruct (Z.ltb_spec q (2 ^ 53)) as [Hlt|Hge].
  - destruct q as [|p|p]; try lia.
    rewrite shr_fexp_53 by lia.
    set (q' := round_nearest_even _ _).
    assert (Hq' : Zpos p <= q' <= Zpos p + 1).
    { subst q'. destruct l as [|[| |]]; cbn [shr_record_of_loc shr_m];
        apply round_nearest_even_bounds. }
    rewrite pack_rounded_shape by lia.
    destruct (Z.ltb_spec q' (2 ^ 53)); eexists _, _;
      (split; [reflexivity|]); lia.
  - destruct q as [|p|p]; try lia.
    rewrite shr_fexp_54 by lia.
    destruct p as [p|p|]; [| |cbn in Hge; lia].
    + set (mrs := shr_1 _).
      assert (Hm : shr_m mrs = Zpos p)
        by (subst mrs; destruct l as [|[| |]]; reflexivity).
      set (q' := round_nearest_even _ _).
      assert (Hq' : Zpos p <= q' <= Zpos p + 1).
      { subst q'. rewrite Hm. apply round_nearest_even_bounds. }
      rewrite pack_rounded_shape by lia.
      destruct (Z.ltb_spec q' (2 ^ 53)); eexists _, _;
        (split; [reflexivity|]); lia.
    + assert (Hm : exists s, shr_1 (shr_record_of_loc (Zpos p~0) l)
                             = Build_shr_record (Zpos p) false s).
      { destruct l as [|[| |]]; eexists; reflexivity. }
      destruct Hm as (s & ->). cbn [shr_m]. rewrite round_nearest_even_down.
      rewrite pack_rounded_shape by lia.
      destruct (Z.ltb_spec (Zpos p) (2 ^ 53)); [|lia].
      eexists _, _; (split; [reflexivity|]); lia.
Qed.

(** A positive count divided by itself is exactly one. *)
Lemma Number_div_self n :
  0 < Z.of_nat n < 2 ^ 53 ->
  Number_div (Number_of_nat n) (Number_of_nat n) = Number_one.
Proof.
  intros Hn.
  destruct (Number_of_nat_normal n Hn) as (m & e & -> & Hm & He & _).
  unfold Number_div, SFdiv.
  destruct (SFdiv_core_binary_tight m e m e Hm Hm He He)
    as (q & l & -> & Hq & _ & Hq').
  specialize (Hq' eq_refl). subst q. cbn [xorb].
  assert (P54 : 2 ^ 54 = 2 * 2 ^ 53) by reflexivity.
  destruct (binary_round_aux_shape false (2 ^ 53) (e - e - 53) l)
    as (mr & er & -> & Hshape); [lia | lia |].
  destruct Hshape as [[? _]|[[-> ->]|[[? _]|[? _]]]]; try lia.
  unfold Number_one. f_equal. lia.
Qed.

(** A count divided by a larger one is not one. *)
Lemma Number_div_less k n :
  (k < n)%nat -> Z.of_nat n < 2 ^ 53 ->
  Number_div (Number_of_nat k) (Number_of_nat n) <> Number_one.
Proof.
  intros Hkn Hn.
  assert (Hn' : 0 < Z.of_nat n < 2 ^ 53) by lia.
  destruct (Number_of_nat_normal n Hn') as (m2 & e2 & -> & Hm2 & He2 & E2).
  destruct k as [|k]; [discriminate|].
  assert (Hk : 0 < Z.of_nat (S k) < 2 ^ 53) by lia.
  destruct (Number_of_nat_normal (S k) Hk) as (m1 & e1 & -> & Hm1 & He1 & E1).
  assert (Hord : e1 < e2 \/ (e1 = e2 /\ Zpos m1 <= Zpos m2))
    by (apply (normal_forms_ordered (Z.of_nat (S k)) (Z.of_nat n)); lia).
  assert (Hstrict : e1 = e2 -> Zpos m1 < Zpos m2).
  { intros ->. destruct Hord as [?|[_ Hle]]; [lia|].
    destruct (Z.eq_dec (Zpos m1) (Zpos m2)) as [E|]; [exfalso | lia].
    rewrite E1, E2 in E.
    apply Z.mul_reg_r in E; [lia|].
    assert (0 < 2 ^ (- e2)) by (apply Z.pow_pos_nonneg; lia). lia. }
  unfold Number_div, SFdiv.
  destruct (SFdiv_core_binary_tight m1 e1 m2 e2 Hm1 Hm2 He1 He2)
    as (q & l & -> & Hq & Hq' & _).
  cbn [xorb].
  destruct (binary_round_aux_exponent false q (e1 - e2 - 53) l Hq)
    as (mr & er & -> & Her & Her'); [lia|].
  unfold Number_one. intros [= _ Eer].
  destruct Hord as [Hlt|[Heq _]]; [lia|].
  specialize (Hq' (Hstrict Heq)). specialize (Her' Hq'). lia.
Qed.

(** The quotient of counts is zero exactly when the dividend is. *)
Lemma Number_div_zero k n :
  0 < Z.of_nat k < 2 ^ 53 -> 0 < Z.of_nat n < 2 ^ 53 ->
  Number_div (Number_of_nat k) (Number_of_nat n) <> Number_zero.
Proof.
  intros Hk Hn.
  destruct (Number_of_nat_normal n Hn) as (m2 & e2 & -> & Hm2 & He2 & _).
  destruct (Number_of_nat_normal k Hk) as (m1 & e1 & -> & Hm1 & He1 & _).
  unfold Number_div, SFdiv.
  destruct (SFdiv_core_binary_tight m1 e1 m2 e2 Hm1 Hm2 He1 He2)
    as (q & l & -> & Hq & _).
  destruct (binary_round_aux_exponent (xorb false false) q (e1 - e2 - 53) l Hq)
    as (mr & er & -> & _); [lia|].
  discriminate.
Qed.

End Quotients.

(* ================================================================== *)
(** * Further properties of the classifier *)
(* ================================================================== *)

Section ClassifierFurther.

Lemma trimStart_whitespace ws s :
  whitespace ws -> trimStart (ws ++ s) = trimStart s.
Proof.
  induction 1 as [|c ws Hc _ IH]; cbn [app trimStart]; [reflexivity|].
  now rewrite Hc.
Qed.

Lemma trimStart_app v w :
  trimStart (v ++ w)
  = match trimStart v with [] => trimStart w | _ :: _ => trimStart v ++ w end.
Proof.
  induction v as [|c v IH]; cbn [app trimStart]; [reflexivity|].
  destruct (isWhiteSpace c); [exact IH | reflexivity].
Qed.

Lemma trimEnd_whitespace t ws :
  whitespace ws -> trimEnd (t ++ ws) = trimEnd t.
Proof.
  intros H. unfold trimEnd. rewrite rev_app_distr, trimStart_whitespace;
    [reflexivity|].
  unfold whitespace in *. apply Forall_forall. intros c Hc.
  apply in_rev in Hc. revert c Hc. now apply Forall_forall.
Qed.

(** White space around a string does not change what [trim] returns. *)
Lemma trim_whitespace_around ws1 v ws2 :
  whitespace ws1 -> whitespace ws2 -> trim (ws1 ++ v ++ ws2) = trim v.
Proof.
  intros H1 H2. unfold trim. rewrite (trimStart_whitespace ws1 _ H1).
  rewrite trimStart_app. destruct (trimStart v) as [|c t] eqn:E.
  - rewrite <- (app_nil_r ws2), (trimStart_whitespace ws2 [] H2). reflexivity.
  - now apply trimEnd_whitespace.
Qed.

Lemma trimStart_snoc l c :
  isWhiteSpace c = false -> trimStart (l ++ [c]) = trimStart l ++ [c].
Proof.
  intros Hc. induction l as [|a l IH]; cbn [app trimStart].
  - now rewrite Hc.
  - destruct (isWhiteSpace a); [exact IH | reflexivity].
Qed.

(** [trim] keeps a first character that is not white space. *)
Lemma trim_cons c v :
  isWhiteSpace c = false -> trim (c :: v) = c :: trimEnd v.
Proof.
  intros Hc. unfold trim. cbn [trimStart]. rewrite Hc.
  unfold trimEnd. cbn [rev]. rewrite (trimStart_snoc _ _ Hc).
  rewrite rev_app_distr. reflexivity.
Qed.

(** X1.  White space before and after a version string does not change the
    verdict of [isVersionPinned]. *)
Theorem isVersionPinned_ignores_surrounding_whitespace ws1 version ws2 :
  whitespace ws1 -> whitespace ws2 ->
  isVersionPinned (VString (ws1 ++ version ++ ws2))
  = isVersionPinned (VString version).
Proof.
  intros H1 H2. unfold isVersionPinned. cbn [call_trim bind].
  now rewrite (trim_whitespace_around ws1 version ws2 H1 H2).
Qed.

Lemma decimal_digit_version_character c :
  decimal_digit c -> version_character c.
Proof.
  unfold decimal_digit, version_character.
  cbn. intuition.
Qed.

Lemma digits_version_characters w :
  digits w -> Forall version_character w /\ 1 <= List.length w.
Proof.
  intros [Hne HF]. split.
  - revert HF. apply Forall_impl. exact decimal_digit_version_character.
  - destruct w; [easy | cbn; lia].
Qed.

Lemma version_character_literal c :
  In c (lit "0123456789.^~*x") -> version_character c.
Proof. exact (fun H => H). Qed.

Ltac literal_characters :=
  repeat (apply Forall_cons; [apply version_character_literal; cbn; tauto|]);
  apply Forall_nil.

(** X2.  A version that [isVersionPinned] accepts is, once trimmed, written
    with digits, [.], [^], [~], [*] and [x] only, holds a [.] and has at
    least three characters: inner white space, comparison operators, a [v]
    prefix or a pre-release tag never pass. *)
Theorem isVersionPinned_true_characters version :
  isVersionPinned (VString version) = Normal true ->
  Forall version_character (trim version)
  /\ In (ch ".") (trim version)
  /\ 3 <= List.length (trim version).
Proof.
  unfold isVersionPinned. cbn [call_trim bind]. intros [= H].
  apply test_pinned_pattern in H.
  destruct H as (p & major & minor & suffix & -> & Hp & Hmaj & Hmin & Hsuf).
  apply digits_version_characters in Hmaj. destruct Hmaj as [Fmaj Lmaj].
  apply digits_version_characters in Hmin. destruct Hmin as [Fmin Lmin].
  assert (Fp : Forall version_character p)
    by (destruct Hp as [->|[->| ->]]; literal_characters).
  assert (Fs : Forall version_character suffix).
  { destruct Hsuf as [->|(patch & -> & [Hd|[->| ->]])];
      try literal_characters.
    apply Forall_cons; [apply version_character_literal; cbn; tauto|].
    now apply digits_version_characters in Hd. }
  split; [|split].
  - repeat (apply Forall_app; split); auto. literal_characters.
  - apply in_or_app. right. apply in_or_app. right. now left.
  - rewrite !length_app. cbn [List.length]. lia.
Qed.

Lemma not_digit_caret_tilde c :
  c = ch "^" \/ c = ch "~" -> ~ decimal_digit c.
Proof.
  unfold decimal_digit. intros [->| ->]; cbn; intuition discriminate.
Qed.

(** A string that starts with [^] or [~] has the pattern iff what follows
    has it without a prefix. *)
Lemma pinned_pattern_prefixed c w :
  c = ch "^" \/ c = ch "~" ->
  (pinned_pattern (c :: w) <->
   exists major minor suffix,
     w = major ++ [ch "."] ++ minor ++ suffix
     /\ digits major /\ digits minor
     /\ (suffix = []
         \/ exists patch,
              suffix = ch "." :: patch
              /\ (digits patch \/ patch = [ch "*"] \/ patch = [ch "x"]))).
Proof.
  intros Hc. split.
  - intros (p & major & minor & suffix & E & Hp & Hmaj & Hmin & Hsuf).
    destruct Hp as [->|Hp].
    + exfalso. destruct Hmaj as [Hne HF].
      destruct major as [|d major]; [easy|].
      cbn in E. injection E as <- _. inversion HF; subst.
      now apply (not_digit_caret_tilde c Hc).
    + assert (Ep : exists a, p = [a]) by (destruct Hp as [->| ->]; eauto).
      destruct Ep as (a & ->). cbn in E. injection E as _ ->.
      exists major, minor, suffix. auto.
  - intros (major & minor & suffix & -> & Hmaj & Hmin & Hsuf).
    exists [c], major, minor, suffix. split; [reflexivity|].
    split; [|auto].
    destruct Hc as [->| ->]; auto.
Qed.

Lemma test_eq_of_iff s s' :
  (pinned_pattern s <-> pinned_pattern s') ->
  test PINNED_VERSION_REGEX s = test PINNED_VERSION_REGEX s'.
Proof.
  intros H. rewrite <- !test_pinned_pattern in H.
  destruct (test PINNED_VERSION_REGEX s), (test PINNED_VERSION_REGEX s');
    intuition congruence.
Qed.

(** X3.  [isVersionPinned] treats [^] and [~] alike: a version with one in
    front has the verdict of the same version with the other; and in front
    of a version that starts with a digit neither changes the verdict. *)
Theorem isVersionPinned_caret_tilde version :
  isVersionPinned (VString (ch "^" :: version))
  = isVersionPinned (VString (ch "~" :: version))
  /\ forall d rest,
       version = d :: rest -> decimal_digit d ->
       isVersionPinned (VString (ch "^" :: version))
       = isVersionPinned (VString version).
Proof.
  unfold isVersionPinned. cbn [call_trim bind]. split.
  - rewrite !trim_cons by reflexivity. f_equal. apply test_eq_of_iff.
    rewrite !pinned_pattern_prefixed by auto. reflexivity.
  - intros d rest -> Hd.
    assert (Hw : isWhiteSpace d = false).
    { unfold decimal_digit in Hd. cbn in Hd.
      repeat (destruct Hd as [<-|Hd]; [reflexivity|]). easy. }
    rewrite trim_cons by reflexivity.
    unfold trimEnd at 1. cbn [rev].
    rewrite (trimStart_snoc _ _ Hw), rev_app_distr. cbn [rev app].
    rewrite (trim_cons d rest Hw). unfold trimEnd.
    f_equal. apply test_eq_of_iff.
    rewrite pinned_pattern_prefixed by auto.
    set (w := d :: rev (trimStart (rev rest))). split.
    + intros (major & minor & suffix & E & Hmaj & Hmin & Hsuf).
      exists [], major, minor, suffix. auto.
    + intros (p & major & minor & suffix & E & Hp & Hmaj & Hmin & Hsuf).
      destruct Hp as [->|Hp]; [exists major, minor, suffix; auto|].
      exfalso. subst w.
      assert (Ed : d = ch "^" \/ d = ch "~").
      { destruct Hp as [->| ->]; cbn in E; injection E as -> _; auto. }
      now apply (not_digit_caret_tilde d Ed).
Qed.

End ClassifierFurther.

(* ================================================================== *)
(** * Further properties of the score calculator *)
(* ================================================================== *)

Section ScoreFurther.

Lemma call_trim_string v :
  is_string v = true -> exists s, v = VString s.
Proof. destruct v; try discriminate. eauto. Qed.

Lemma call_trim_not_string v :
  is_string v = false -> exists e, call_trim v = Throw e.
Proof. destruct v; try discriminate; cbn; eauto. Qed.

(** The loop of [calculatePinningScore] over a part of the names: it ends
    normally when every version of the part is a string, and otherwise
    throws what [trim] throws on the first version that is not. *)
Lemma forEach_first_not_string (o : object) (l : object) :
  wf_object o -> incl l o ->
  forall acc : nat,
    match
      forEach (keys l)
        (fun dep pinnedCount =>
           bind (isVersionPinned
                   match own o dep with Some v => v | None => VUndefined end)
                (fun pinned : bool =>
                   Normal (if pinned then pinnedCount + 1 else pinnedCount)))
        acc
    with
    | Normal _ => forallb (fun kv => is_string (snd kv)) l = true
    | Throw e =>
        exists before name version after,
          l = before ++ (name, version) :: after
          /\ forallb (fun kv => is_string (snd kv)) before = true
          /\ is_string version = false
          /\ call_trim version = Throw e
    end.
Proof.
  intros Hwf. induction l as [|[k v] l IH]; intros Hincl acc.
  - reflexivity.
  - cbn [keys map fst forEach].
    rewrite (own_In o k v Hwf) by (apply Hincl; now left).
    unfold isVersionPinned at 1.
    destruct (is_string v) eqn:Es.
    + destruct (call_trim_string v Es) as (s & ->). cbn [call_trim bind].
      assert (Hincl' : incl l o) by (intros x Hx; apply Hincl; now right).
      specialize (IH Hincl'
        (if test PINNED_VERSION_REGEX (trim s) then acc + 1 else acc)).
      change (map fst l) with (keys l).
      destruct (forEach (keys l) _ _) as [n|e].
      * cbn [forallb snd is_string]. exact IH.
      * destruct IH as (before & name & version & after & -> & Hb & Hv & He).
        exists ((k, VString s) :: before), name, version, after.
        repeat split; auto.
    + destruct (call_trim_not_string v Es) as (e & He). rewrite He.
      cbn [bind]. exists [], k, v, l. repeat split; auto.
Qed.

(** X4.  [calculatePinningScore] returns a number when every version of the
    object is a string; otherwise it throws the TypeError of calling [trim]
    on the first version, in key order, that is not a string. *)
Theorem calculatePinningScore_throws_on_first_non_string (o : object) :
  wf_object o ->
  match calculatePinningScore o with
  | Normal _ => forallb (fun kv => is_string (snd kv)) o = true
  | Throw e =>
      exists before name version after,
        o = before ++ (name, version) :: after
        /\ forallb (fun kv => is_string (snd kv)) before = true
        /\ is_string version = false
        /\ call_trim version = Throw e
  end.
Proof.
  intros Hwf. unfold calculatePinningScore, Object_keys.
  destruct (Nat.eqb_spec (List.length (keys o)) 0) as [E|_].
  - unfold keys in E. rewrite length_map in E.
    destruct o; [reflexivity | discriminate].
  - pose proof (forEach_first_not_string o o Hwf (incl_refl o) 0) as H.
    destruct (forEach (keys o) _ 0) as [n|e]; exact H.
Qed.

Lemma all_pinned_length (m : DependencyMap) :
  all_pinned m = true
  <-> List.length (pinned_entries m) = List.length m.
Proof.
  unfold all_pinned, pinned_entries. split.
  - intros H. induction m as [|kv m IH]; [reflexivity|].
    cbn [forallb] in H. apply andb_true_iff in H. destruct H as [H1 H2].
    cbn [filter]. rewrite H1. cbn [List.length]. now rewrite IH.
  - apply filter_length_forallb.
Qed.

(** X5.  The score of a dependency map is exactly [1.0] if and only if every
    entry is pinned, and for a non-empty map exactly [0] if and only if no
    entry is pinned. *)
Theorem calculatePinningScore_one_zero (m : DependencyMap) :
  NoDup (map fst m) -> (Z.of_nat (List.length m) < 2 ^ 53)%Z ->
  exists x,
    calculatePinningScore (as_object m) = Normal x
    /\ (x = Number_one <-> all_pinned m = true)
    /\ (m <> [] -> (x = Number_zero <-> pinned_entries m = [])).
Proof.
  intros Hnd Hlen. eexists. split; [apply (calculatePinningScore_typed m Hnd)|].
  destruct (Nat.eqb_spec (List.length m) 0) as [E|Hne].
  - destruct m; [|discriminate]. split; [|easy].
    split; reflexivity.
  - assert (Hk : List.length (pinned_entries m) <= List.length m)
      by apply filter_length_le.
    rewrite all_pinned_length. split.
    + split.
      * intros H.
        destruct (Nat.eq_dec (List.length (pinned_entries m))
                    (List.length m)) as [|Hlt]; [assumption | exfalso].
        revert H. apply Number_div_less; lia.
      * intros ->. apply Number_div_self. lia.
    + intros _. split.
      * intros H. destruct (pinned_entries m) as [|kv l] eqn:Ep;
          [reflexivity | exfalso].
        revert H. apply Number_div_zero; cbn [List.length] in *; lia.
      * intros ->. cbn [List.length].
        destruct (Number_of_nat_normal (List.length m))
          as (m2 & e2 & -> & _); [lia | reflexivity].
Qed.

End ScoreFurther.

(* ================================================================== *)
(** * Further properties of the aggregation and the fetcher *)
(* ================================================================== *)

Section FetcherFurther.

Lemma In_keys_own (o : object) k : In k (keys o) <-> own o k <> None.
Proof.
  pose proof (own_None_iff o k) as H.
  destruct (in_dec (list_eq_dec N.eq_dec) k (keys o)) as [Hin|Hn].
  - split; [|easy]. intros _ E. now apply H in E.
  - split; [easy|]. intros E. now apply H in Hn.
Qed.

(** X6.  A name that several categories declare is one entry of the merged
    map: the map holds exactly the names the four categories declare, each
    once. *)
Theorem allDependencies_counts_names_once (manifest : object) :
  (forall name, In name category_names -> absent_or_mapping manifest name) ->
  exists all : object,
    allDependencies (VObject manifest) = Normal all
    /\ (forall name, In name (keys all) <-> In name (declared_names manifest))
    /\ List.length all
       = List.length
           (nodup (list_eq_dec N.eq_dec) (declared_names manifest)).
Proof.
  intros H. unfold allDependencies. cbn [Get bind].
  eexists. split; [reflexivity|].
  match goal with |- (forall name, In name (keys ?a) <-> _) /\ _ =>
    set (all := a) end.
  assert (Hwf : wf_object all) by (repeat apply wf_spread; constructor).
  assert (Hin : forall name,
             In name (keys all) <-> In name (declared_names manifest)).
  { intros k. rewrite In_keys_own. subst all.
    rewrite !own_spread_category by (apply H; cbn; tauto).
    unfold declared_names. cbn [category_names map List.concat].
    rewrite !in_app_iff, !In_keys_own. cbn [own In].
    destruct (own (category manifest (lit "optionalDependencies")) k),
             (own (category manifest (lit "peerDependencies")) k),
             (own (category manifest (lit "devDependencies")) k),
             (own (category manifest (lit "dependencies")) k);
      intuition congruence. }
  split; [exact Hin|].
  rewrite <- (length_map fst all). change (map fst all) with (keys all).
  apply Permutation_length. apply NoDup_Permutation.
  - exact Hwf.
  - apply NoDup_nodup.
  - intros k. rewrite nodup_In. apply Hin.
Qed.

Variable env : Environment.

(** What the fetcher returns once the manifest is decoded: the score of the
    merged map, or [null] with one record if merging or scoring throws. *)
Lemma fetch_decoded owner repo headers log packageJson :
  fetch_decodes env owner repo headers packageJson ->
  _getDependencyPinningFractionFromPackageJson env owner repo headers log
  = match bind (allDependencies packageJson) calculatePinningScore with
    | Normal score => (Normal (Some score), log)
    | Throw e => (Normal None, log ++ [failed_to_fetch env owner repo e])
    end.
Proof.
  intros [resp content buffer Hget Hc Ht Hb Hp].
  unfold _getDependencyPinningFractionFromPackageJson, try_catch, mbind, lift.
  fold (contents_url owner repo).
  rewrite Hget, Hc, Ht, Hb, Hp.
  destruct (allDependencies packageJson) as [all|e] eqn:Hall; cbn [bind].
  - destruct (calculatePinningScore all) as [score|e] eqn:Hs;
      [reflexivity|].
    now rewrite (read_message_Error_object env e
                   (calculatePinningScore_throws _ _ Hs)).
  - now rewrite (read_message_Error_object env e
                   (allDependencies_throws _ _ Hall)).
Qed.

(** X7.  When the decoded manifest is [null] (the text [null] parses to it),
    reading its first category throws: the fetcher returns [null] and
    writes one failed-to-fetch record with the message of that TypeError. *)
Theorem fetch_null_manifest owner repo headers log packageJson :
  fetch_decodes env owner repo headers packageJson ->
  is_nullish packageJson = true ->
  _getDependencyPinningFractionFromPackageJson env owner repo headers log
  = (Normal None,
     log ++ [failed_to_fetch env owner repo
               (TypeError (ReadOfNullish packageJson (lit "dependencies")))]).
Proof.
  intros Hd Hn. rewrite (fetch_decoded owner repo headers log _ Hd).
  destruct packageJson; try discriminate; reflexivity.
Qed.

Lemma spread_nothing (target : object) source :
  enumerable_own source = [] -> spread target source = target.
Proof. unfold spread. now intros ->. Qed.

(** X8.  When the decoded manifest is not [null] and none of its four
    categories holds an entry (as for a number, a boolean, a string, an
    array, an object without the categories or with [null] or empty ones),
    the fetcher returns [1.0] and writes nothing. *)
Theorem fetch_manifest_without_dependencies owner repo headers log
  packageJson :
  fetch_decodes env owner repo headers packageJson ->
  is_nullish packageJson = false ->
  declares_nothing packageJson ->
  _getDependencyPinningFractionFromPackageJson env owner repo headers log
  = (Normal (Some Number_one), log).
Proof.
  intros Hd Hn Hnone. rewrite (fetch_decoded owner repo headers log _ Hd).
  assert (Hget : forall name,
             Get packageJson name = Normal (declared packageJson name)).
  { intros name. unfold declared.
    destruct packageJson; try discriminate; reflexivity. }
  unfold allDependencies. rewrite !Hget. cbn [bind].
  rewrite !spread_nothing by (apply Hnone; cbn; tauto).
  reflexivity.
Qed.

Lemma allDependencies_wf packageJson all :
  allDependencies packageJson = Normal all -> wf_object all.
Proof.
  unfold allDependencies.
  destruct (Get packageJson (lit "dependencies")); [|discriminate].
  destruct (Get packageJson (lit "devDependencies")); [|discriminate].
  destruct (Get packageJson (lit "peerDependencies")); [|discriminate].
  destruct (Get packageJson (lit "optionalDependencies")); [|discriminate].
  cbn [bind]. intros [= <-]. repeat apply wf_spread. constructor.
Qed.

(** X9.  When the merged map holds a version that is not a string, the
    fetcher returns [null] and writes one failed-to-fetch record, with the
    message of the TypeError that [trim] raises on such a version. *)
Theorem fetch_non_string_version owner repo headers log packageJson all
  name version :
  fetch_decodes env owner repo headers packageJson ->
  allDependencies packageJson = Normal all ->
  In (name, version) all -> is_string version = false ->
  exists culprit e,
    In culprit (map snd all)
    /\ is_string culprit = false
    /\ call_trim culprit = Throw e
    /\ _getDependencyPinningFractionFromPackageJson env owner repo headers log
       = (Normal None, log ++ [failed_to_fetch env owner repo e]).
Proof.
  intros Hd Hall Hin Hv. rewrite (fetch_decoded owner repo headers log _ Hd).
  rewrite Hall. cbn [bind].
  pose proof (forEach_first_not_string all all
                (allDependencies_wf _ _ Hall) (incl_refl all) 0) as H.
  unfold calculatePinningScore, Object_keys.
  destruct (Nat.eqb_spec (List.length (keys all)) 0) as [E|_].
  { unfold keys in E. rewrite length_map in E. now destruct all. }
  destruct (forEach (keys all) _ 0) as [x|e]; cbn [bind].
  - exfalso. rewrite forallb_forall in H. specialize (H _ Hin).
    cbn [snd] in H. congruence.
  - destruct H as (before & k & v & after & -> & _ & Hs & He).
    exists v, e. repeat split; auto.
    rewrite map_app. apply in_or_app. right. now left.
Qed.

End FetcherFurther.

(* ================================================================== *)
(** * Further properties of the request builder and the orchestrator *)
(* ================================================================== *)

Section OrchestratorFurther.

Variable env : Environment.

(** What [get_axios_params] does, by the answer of the URL parser. *)
Lemma get_axios_params_run url token log :
  get_axios_params env url token log
  = match parseGitHubUrl env url with
    | Normal (owner, repo) =>
        (Normal (owner, repo, request_headers token),
         log ++ [generated_parameters owner repo])
    | Throw e => (Throw e, log)
    end.
Proof.
  unfold get_axios_params, mbind, lift, logger_debug, ret.
  destruct (parseGitHubUrl env url) as [[owner repo]|e]; reflexivity.
Qed.

(** X10.  [get_axios_params] passes on what the URL parser throws and then
    writes nothing; otherwise it returns the owner, the repository and the
    two headers, the first being [token ] followed by the token, and writes
    one debug record holding the owner and the repository.  What it writes
    does not depend on the token. *)
Theorem get_axios_params_outcome url token log :
  (forall e,
     parseGitHubUrl env url = Throw e ->
     get_axios_params env url token log = (Throw e, log))
  /\ (forall owner repo,
        parseGitHubUrl env url = Normal (owner, repo) ->
        exists headers,
          get_axios_params env url token log
          = (Normal (owner, repo, headers),
             log ++ [generated_parameters owner repo])
          /\ keys headers = [lit "Authorization"; lit "Accept"]
          /\ own headers (lit "Authorization")
             = Some (VString (lit "token " ++ token))
          /\ own headers (lit "Accept")
             = Some (VString (lit "application/vnd.github.v3+json")))
  /\ (forall token',
        snd (get_axios_params env url token' log)
        = snd (get_axios_params env url token log)).
Proof.
  rewrite get_axios_params_run. split; [|split].
  - now intros e ->.
  - intros owner repo ->. exists (request_headers token).
    repeat split; reflexivity.
  - intros token'. rewrite get_axios_params_run.
    destruct (parseGitHubUrl env url) as [[owner repo]|e]; reflexivity.
Qed.

(** The orchestrator after a successful URL parse: the debug record, then
    the run of the fetcher. *)
Lemma getDependencyPinningFraction_parsed url token log owner repo :
  parseGitHubUrl env url = Normal (owner, repo) ->
  getDependencyPinningFraction env url token log
  = _getDependencyPinningFractionFromPackageJson env owner repo
      (request_headers token) (log ++ [generated_parameters owner repo]).
Proof.
  intros Hparse. unfold getDependencyPinningFraction, try_catch, mbind at 1.
  rewrite get_axios_params_run, Hparse. cbn [fst snd].
  destruct (fetch_returns env owner repo (request_headers token)
              (log ++ [generated_parameters owner repo]))
    as (r & log' & E).
  now rewrite E.
Qed.


(** X12.  The token reaches nothing but the request: two runs on the same
    URL whose requests get the same reply return the same result and write
    the same records, whatever the two tokens are. *)
Theorem getDependencyPinningFraction_token_only_in_request url token token'
  log :
  (forall owner repo,
     parseGitHubUrl env url = Normal (owner, repo) ->
     axios_get env (contents_url owner repo) (request_headers token)
     = axios_get env (contents_url owner repo) (request_headers token')) ->
  getDependencyPinningFraction env url token log
  = getDependencyPinningFraction env url token' log.
Proof.
  intros Hreply.
  destruct (parseGitHubUrl env url) as [[owner repo]|e] eqn:Hparse.
  - rewrite !(getDependencyPinningFraction_parsed url _ log _ _ Hparse).
    unfold _getDependencyPinningFractionFromPackageJson, try_catch, mbind,
      lift.
    fold (contents_url owner repo).
    now rewrite (Hreply owner repo eq_refl).
  - now rewrite !(getDependencyPinningFraction_unparsed env url _ log e
                    Hparse).
Qed.

(** X13.  End to end: when the URL parses, the request for the contents of
    [package.json] with the built headers succeeds, and its content decodes
    to a manifest whose merged map is a map of strings, the orchestrator
    returns the score of that map (one for the empty map, otherwise the
    quotient of the pinned entries by all entries) and writes the debug
    record only. *)
Theorem getDependencyPinningFraction_success url token log owner repo
  packageJson (m : DependencyMap) :
  parseGitHubUrl env url = Normal (owner, repo) ->
  fetch_decodes env owner repo (request_headers token) packageJson ->
  allDependencies packageJson = Normal (as_object m) ->
  getDependencyPinningFraction env url token log
  = (Normal
       (Some (if Nat.eqb (List.length m) 0 then Number_one
              else Number_div
                     (Number_of_nat (List.length (pinned_entries m)))
                     (Number_of_nat (List.length m)))),
     log ++ [generated_parameters owner repo]).
Proof.
  intros Hparse Hdec Hall.
  rewrite (getDependencyPinningFraction_parsed url token log _ _ Hparse).
  rewrite (fetch_decoded env owner repo _ _ _ Hdec), Hall. cbn [bind].
  assert (Hnd : NoDup (map fst m)).
  { pose proof (allDependencies_wf _ _ Hall) as Hwf.
    unfold wf_object in Hwf. now rewrite keys_as_object in Hwf. }
  now rewrite (calculatePinningScore_typed m Hnd).
Qed.

End OrchestratorFurther.

(* ================================================================== *)
(** * Further examples *)
(* ================================================================== *)

Section FurtherExamples.

Ltac distinct_names :=
  unfold wf_object, keys;
  repeat constructor; vm_compute; intuition discriminate.

Ltac decoded :=
  eapply decodes; reflexivity.

(** [" 1.2.3"] followed by a line feed. *)
Lemma isVersionPinned_ignores_surrounding_whitespace_witness :
  whitespace (lit " ") /\ whitespace [0x0A%N]
  /\ isVersionPinned (VString (lit " " ++ lit "1.2.3" ++ [0x0A%N]))
     = isVersionPinned (VString (lit "1.2.3")).
Proof.
  assert (H1 : whitespace (lit " ")) by (repeat constructor).
  assert (H2 : whitespace [0x0A%N]) by (repeat constructor).
  split; [exact H1|]. split; [exact H2|].
  exact (isVersionPinned_ignores_surrounding_whitespace (lit " ")
           (lit "1.2.3") [0x0A%N] H1 H2).
Defined.

(** [" ^1.2.x "]. *)
Lemma isVersionPinned_true_characters_witness :
  isVersionPinned (VString (lit " ^1.2.x ")) = Normal true
  /\ Forall version_character (trim (lit " ^1.2.x "))
  /\ In (ch ".") (trim (lit " ^1.2.x "))
  /\ 3 <= List.length (trim (lit " ^1.2.x ")).
Proof.
  split; [reflexivity|].
  exact (isVersionPinned_true_characters (lit " ^1.2.x ") eq_refl).
Defined.

(** [^1.2.3] and [1.2.3]. *)
Lemma isVersionPinned_caret_tilde_witness :
  lit "1.2.3" = ch "1" :: lit ".2.3" /\ decimal_digit (ch "1")
  /\ isVersionPinned (VString (ch "^" :: lit "1.2.3"))
     = isVersionPinned (VString (lit "1.2.3")).
Proof.
  assert (Hd : decimal_digit (ch "1")) by (right; left; reflexivity).
  split; [reflexivity|]. split; [exact Hd|].
  exact (proj2 (isVersionPinned_caret_tilde (lit "1.2.3")) (ch "1")
           (lit ".2.3") eq_refl Hd).
Defined.

Lemma sample_untyped_wf : wf_object sample_untyped.
Proof. distinct_names. Defined.

(** [{a: "1.2.3", b: 1}]: the second version is a number. *)
Lemma calculatePinningScore_throws_on_first_non_string_witness :
  wf_object sample_untyped
  /\ match calculatePinningScore sample_untyped with
     | Normal _ =>
         forallb (fun kv => is_string (snd kv)) sample_untyped = true
     | Throw e =>
         exists before name version after,
           sample_untyped = before ++ (name, version) :: after
           /\ forallb (fun kv => is_string (snd kv)) before = true
           /\ is_string version = false
           /\ call_trim version = Throw e
     end.
Proof.
  split; [exact sample_untyped_wf|].
  exact (calculatePinningScore_throws_on_first_non_string sample_untyped
           sample_untyped_wf).
Defined.

(** [{a: "1.2.3", b: "*"}]: neither [1.0] nor [0]. *)
Lemma calculatePinningScore_one_zero_witness :
  NoDup (map fst sample_map)
  /\ (Z.of_nat (List.length sample_map) < 2 ^ 53)%Z
  /\ exists x,
       calculatePinningScore (as_object sample_map) = Normal x
       /\ (x = Number_one <-> all_pinned sample_map = true)
       /\ (sample_map <> [] ->
           (x = Number_zero <-> pinned_entries sample_map = [])).
Proof.
  assert (Hlen : (Z.of_nat (List.length sample_map) < 2 ^ 53)%Z)
    by reflexivity.
  split; [exact sample_map_distinct|]. split; [exact Hlen|].
  exact (calculatePinningScore_one_zero sample_map sample_map_distinct Hlen).
Defined.

(** The manifest with [dependencies] and [devDependencies]. *)
Lemma allDependencies_counts_names_once_witness :
  (forall name,
     In name category_names -> absent_or_mapping sample_manifest name)
  /\ exists all : object,
       allDependencies (VObject sample_manifest) = Normal all
       /\ (forall name,
             In name (keys all) <-> In name (declared_names sample_manifest))
       /\ List.length all
          = List.length
              (nodup (list_eq_dec N.eq_dec) (declared_names sample_manifest)).
Proof.
  split; [exact sample_manifest_categories|].
  exact (allDependencies_counts_names_once sample_manifest
           sample_manifest_categories).
Defined.

(** A content that parses to [null]. *)
Lemma fetch_null_manifest_witness :
  let env := sample_environment sample_reply (Normal VNull) in
  fetch_decodes env (lit "octocat") (lit "hello-world") sample_headers VNull
  /\ is_nullish VNull = true
  /\ _getDependencyPinningFractionFromPackageJson env (lit "octocat")
       (lit "hello-world") sample_headers []
     = (Normal None,
        [] ++ [failed_to_fetch env (lit "octocat") (lit "hello-world")
                 (TypeError (ReadOfNullish VNull (lit "dependencies")))]).
Proof.
  intros env.
  assert (Hd : fetch_decodes env (lit "octocat") (lit "hello-world")
                 sample_headers VNull) by decoded.
  split; [exact Hd|]. split; [reflexivity|].
  exact (fetch_null_manifest env (lit "octocat") (lit "hello-world")
           sample_headers [] VNull Hd eq_refl).
Defined.

(** A content that parses to the array [[]]. *)
Lemma fetch_manifest_without_dependencies_witness :
  let env := sample_environment sample_reply (Normal (VArray [])) in
  fetch_decodes env (lit "octocat") (lit "hello-world") sample_headers
    (VArray [])
  /\ is_nullish (VArray []) = false
  /\ declares_nothing (VArray [])
  /\ _getDependencyPinningFractionFromPackageJson env (lit "octocat")
       (lit "hello-world") sample_headers []
     = (Normal (Some Number_one), []).
Proof.
  intros env.
  assert (Hd : fetch_decodes env (lit "octocat") (lit "hello-world")
                 sample_headers (VArray [])) by decoded.
  assert (Hn : declares_nothing (VArray [])) by (intros name _; reflexivity).
  split; [exact Hd|]. split; [reflexivity|]. split; [exact Hn|].
  exact (fetch_manifest_without_dependencies env (lit "octocat")
           (lit "hello-world") sample_headers [] (VArray []) Hd eq_refl Hn).
Defined.

(** A manifest with [dependencies: {b: 1}]. *)
Lemma fetch_non_string_version_witness :
  let packageJson :=
    VObject [(lit "dependencies", VObject [(lit "b", VNumber Number_one)])] in
  let all := [(lit "b", VNumber Number_one)] in
  let env := sample_environment sample_reply (Normal packageJson) in
  fetch_decodes env (lit "octocat") (lit "hello-world") sample_headers
    packageJson
  /\ allDependencies packageJson = Normal all
  /\ In (lit "b", VNumber Number_one) all
  /\ is_string (VNumber Number_one) = false
  /\ exists culprit e,
       In culprit (map snd all)
       /\ is_string culprit = false
       /\ call_trim culprit = Throw e
       /\ _getDependencyPinningFractionFromPackageJson env (lit "octocat")
            (lit "hello-world") sample_headers []
          = (Normal None,
             [] ++ [failed_to_fetch env (lit "octocat") (lit "hello-world")
                      e]).
Proof.
  intros packageJson all env.
  assert (Hd : fetch_decodes env (lit "octocat") (lit "hello-world")
                 sample_headers packageJson) by decoded.
  assert (Hin : In (lit "b", VNumber Number_one) all) by (left; reflexivity).
  split; [exact Hd|]. split; [reflexivity|]. split; [exact Hin|].
  split; [reflexivity|].
  exact (fetch_non_string_version env (lit "octocat") (lit "hello-world")
           sample_headers [] packageJson all (lit "b") (VNumber Number_one)
           Hd eq_refl Hin eq_refl).
Defined.

(** A URL that parses to [octocat/hello-world]. *)
Lemma get_axios_params_outcome_witness :
  let env := sample_environment sample_reply (Normal VNull) in
  parseGitHubUrl env (lit "https://github.com/octocat/hello-world")
  = Normal (lit "octocat", lit "hello-world")
  /\ exists headers,
       get_axios_params env (lit "https://github.com/octocat/hello-world")
         (lit "t") []
       = (Normal (lit "octocat", lit "hello-world", headers),
          [] ++ [generated_parameters (lit "octocat") (lit "hello-world")])
       /\ keys headers = [lit "Authorization"; lit "Accept"]
       /\ own headers (lit "Authorization")
          = Some (VString (lit "token " ++ lit "t"))
       /\ own headers (lit "Accept")
          = Some (VString (lit "application/vnd.github.v3+json")).
Proof.
  intros env. split; [reflexivity|].
  exact (proj1 (proj2 (get_axios_params_outcome env
                         (lit "https://github.com/octocat/hello-world")
                         (lit "t") []))
           (lit "octocat") (lit "hello-world") eq_refl).
Defined.

(** Two tokens, and a client that answers both alike. *)
Lemma getDependencyPinningFraction_token_only_in_request_witness :
  let env := sample_environment sample_reply (Normal (VObject sample_manifest))
  in
  let url := lit "https://github.com/octocat/hello-world" in
  (forall owner repo,
     parseGitHubUrl env url = Normal (owner, repo) ->
     axios_get env (contents_url owner repo) (request_headers (lit "t1"))
     = axios_get env (contents_url owner repo) (request_headers (lit "t2")))
  /\ getDependencyPinningFraction env url (lit "t1") []
     = getDependencyPinningFraction env url (lit "t2") [].
Proof.
  intros env url.
  assert (H : forall owner repo,
             parseGitHubUrl env url = Normal (owner, repo) ->
             axios_get env (contents_url owner repo)
               (request_headers (lit "t1"))
             = axios_get env (contents_url owner repo)
                 (request_headers (lit "t2")))
    by (intros owner repo _; reflexivity).
  split; [exact H|].
  exact (getDependencyPinningFraction_token_only_in_request env url
           (lit "t1") (lit "t2") [] H).
Defined.

(** The manifest with [lodash] pinned and [jest] not: the score is [0.5]. *)
Lemma getDependencyPinningFraction_success_witness :
  let packageJson := VObject sample_manifest in
  let env := sample_environment sample_reply (Normal packageJson) in
  let url := lit "https://github.com/octocat/hello-world" in
  parseGitHubUrl env url = Normal (lit "octocat", lit "hello-world")
  /\ fetch_decodes env (lit "octocat") (lit "hello-world")
       (request_headers (lit "t")) packageJson
  /\ allDependencies packageJson = Normal (as_object sample_manifest_map)
  /\ getDependencyPinningFraction env url (lit "t") []
     = (Normal
          (Some
             (if Nat.eqb (List.length sample_manifest_map) 0 then Number_one
              else Number_div
                     (Number_of_nat
                        (List.length (pinned_entries sample_manifest_map)))
                     (Number_of_nat (List.length sample_manifest_map)))),
        [] ++ [generated_parameters (lit "octocat") (lit "hello-world")]).
Proof.
  intros packageJson env url.
  assert (Hd : fetch_decodes env (lit "octocat") (lit "hello-world")
                 (request_headers (lit "t")) packageJson) by decoded.
  split; [reflexivity|]. split; [exact Hd|]. split; [reflexivity|].
  exact (getDependencyPinningFraction_success env url (lit "t") []
           (lit "octocat") (lit "hello-world") packageJson
           sample_manifest_map eq_refl Hd eq_refl).
Defined.

End FurtherExamples.

(* ================================================================== *)
(** * Examples: what the URL parser throws *)
(* ================================================================== *)

Section UnparsedExamples.



End UnparsedExamples.
